(** * spring_exporter: the collection cycle of [spring/exporter.go]

    A shallow embedding of the exporter (package [spring]) and the
    properties of its key sanitizer, its collection cycle and its
    exclusivity guard.

    Go strings are byte sequences: they are [string]s here, one [ascii]
    per byte.  Go's [float64] is [spec_float], the IEEE 754 binary64
    values of the core library.  The raw payload [map[string]float64]
    is a [gmap string float64]. *)

From Stdlib Require Import ZArith Ascii String List Lia Bool.
From Stdlib Require Import Floats.SpecFloat.
From stdpp Require Import base option list strings gmap fin_maps.

Local Open Scope string_scope.
Local Open Scope list_scope.
Local Open Scope Z_scope.

(** ** Bytes and strings *)

Module Bytes.

(** [s[i]] as an integer, for a byte [c] of the string. *)
Definition byteZ (c : ascii) : Z := Z.of_N (N_of_ascii c).

(** [s[:n]] *)
Fixpoint take (n : nat) (s : string) : string :=
  match n, s with
  | S n', String c t => String c (take n' t)
  | _, _ => ""
  end.

(** [s[n:]] *)
Fixpoint drop (n : nat) (s : string) : string :=
  match n, s with
  | S n', String _ t => drop n' t
  | _, _ => s
  end.

(** [s[i]], 0 when [i] is out of range (the callers below check the
    length first, as the Go code does). *)
Definition at_ (s : string) (i : nat) : Z :=
  match String.get i s with
  | Some c => byteZ c
  | None => 0
  end.

End Bytes.

(** ** unicode/utf8: decoding one rune

    [regexp] steps through its input with [utf8.DecodeRuneInString]; the
    tables [first] and [acceptRanges] and the decoder are those of the Go
    standard library. *)

Module utf8.
Import Bytes.

Definition RuneError : Z := 0xFFFD.
Definition RuneSelf : Z := 0x80.

Definition maskx : Z := 0x3F.
Definition mask2 : Z := 0x1F.
Definition mask3 : Z := 0x0F.
Definition mask4 : Z := 0x07.

Definition locb : Z := 0x80.
Definition hicb : Z := 0xBF.

Definition xx : Z := 0xF1.
Definition as_ : Z := 0xF0.
Definition s1 : Z := 0x02.
Definition s2 : Z := 0x13.
Definition s3 : Z := 0x03.
Definition s4 : Z := 0x23.
Definition s5 : Z := 0x34.
Definition s6 : Z := 0x04.
Definition s7 : Z := 0x44.

(** The table [first]: information about the first byte of an encoding. *)
Definition first (b : Z) : Z :=
  if b <? 0x80 then as_
  else if b <? 0xC2 then xx
  else if b <? 0xE0 then s1
  else if b =? 0xE0 then s2
  else if b <? 0xED then s3
  else if b =? 0xED then s4
  else if b <? 0xF0 then s3
  else if b =? 0xF0 then s5
  else if b <? 0xF4 then s6
  else if b =? 0xF4 then s7
  else xx.

(** The table [acceptRanges]: the range allowed for the second byte. *)
Definition acceptRanges (i : Z) : Z * Z :=
  if i =? 0 then (locb, hicb)
  else if i =? 1 then (0xA0, hicb)
  else if i =? 2 then (locb, 0x9F)
  else if i =? 3 then (0x90, hicb)
  else if i =? 4 then (locb, 0x8F)
  else (0, 0).

(** [utf8.DecodeRuneInString]: the first rune of [s] and its width in
    bytes; [(RuneError, 0)] for the empty string and [(RuneError, 1)] for
    an encoding that is invalid or cut short. *)
Definition DecodeRuneInString (s : string) : Z * nat :=
  let n := String.length s in
  if (n <? 1)%nat then (RuneError, 0%nat) else
  let s0 := at_ s 0 in
  let x := first s0 in
  if as_ <=? x then
    (* mask := rune(x) << 31 >> 31: all ones when the low bit of x is set *)
    let mask := if Z.testbit x 0 then (-1) else 0 in
    (Z.lor (Z.land s0 (Z.lnot mask)) (Z.land RuneError mask), 1%nat)
  else
  let sz := Z.to_nat (Z.land x 7) in
  let accept := acceptRanges (Z.shiftr x 4) in
  if (n <? sz)%nat then (RuneError, 1%nat) else
  let s1 := at_ s 1 in
  if (s1 <? fst accept) || (snd accept <? s1) then (RuneError, 1%nat) else
  if (sz <=? 2)%nat then
    (Z.lor (Z.shiftl (Z.land s0 mask2) 6) (Z.land s1 maskx), 2%nat)
  else
  let s2 := at_ s 2 in
  if (s2 <? locb) || (hicb <? s2) then (RuneError, 1%nat) else
  if (sz <=? 3)%nat then
    (Z.lor (Z.lor (Z.shiftl (Z.land s0 mask3) 12)
                  (Z.shiftl (Z.land s1 maskx) 6))
           (Z.land s2 maskx), 3%nat)
  else
  let s3 := at_ s 3 in
  if (s3 <? locb) || (hicb <? s3) then (RuneError, 1%nat) else
  (Z.lor (Z.lor (Z.lor (Z.shiftl (Z.land s0 mask4) 18)
                       (Z.shiftl (Z.land s1 maskx) 12))
                (Z.shiftl (Z.land s2 maskx) 6))
         (Z.land s3 maskx), 4%nat).

(** The runes of a string, in order, as a [range] over the string yields
    them.  The fuel bounds the number of decoding steps; every step
    consumes at least one byte, so the length of the string is enough. *)
Fixpoint runesFrom (fuel : nat) (s : string) : list Z :=
  match fuel with
  | O => []
  | S fuel' =>
    match s with
    | "" => []
    | _ => let '(r, w) := DecodeRuneInString s in
           r :: runesFrom fuel' (drop w s)
    end
  end.

Definition runes (s : string) : list Z := runesFrom (String.length s) s.

End utf8.

(** ** regexp: a character class and [ReplaceAllString] *)

Module regexp.
Import Bytes.

(** A compiled pattern that is one character class: [[...]] or [[^...]]
    over ranges of runes (a single character [c] is the range [c-c]). *)
Record Regexp := {
  negated : bool;
  ranges : list (Z * Z)
}.

Definition inRange (r : Z) (lohi : Z * Z) : bool :=
  (fst lohi <=? r) && (r <=? snd lohi).

(** Does the one-rune text [r] match the class? *)
Definition matchRune (re : Regexp) (r : Z) : bool :=
  xorb (negated re) (existsb (inRange r) (ranges re)).

(** [re.ReplaceAllString(src, repl)] for a class [re] and a replacement
    without [$]: every match of the class is exactly one rune of [src];
    it is replaced by [repl], and the text between matches is copied. *)
Fixpoint replaceAll (fuel : nat) (re : Regexp) (src repl : string) : string :=
  match fuel with
  | O => ""
  | S fuel' =>
    match src with
    | "" => ""
    | _ => let '(r, w) := utf8.DecodeRuneInString src in
           (if matchRune re r then repl else take w src)
             +:+ replaceAll fuel' re (drop w src) repl
    end
  end.

Definition ReplaceAllString (re : Regexp) (src repl : string) : string :=
  replaceAll (String.length src) re src repl.

End regexp.

(** ** The key sanitizer *)

Definition rune (c : ascii) : Z := Bytes.byteZ c.

(** [keyRegExp = regexp.MustCompile("[^a-zA-Z0-9:_]")] *)
Definition keyRegExp : regexp.Regexp :=
  {| regexp.negated := true;
     regexp.ranges := [ (rune "a", rune "z"); (rune "A", rune "Z");
                        (rune "0", rune "9"); (rune ":", rune ":");
                        (rune "_", rune "_") ] |}.

(** converts any given key string to a prometheus acceptable key string *)
Definition keyToSnake (key : string) : string :=
  regexp.ReplaceAllString keyRegExp key "_".

(** The characters the sanitizer keeps: [[a-zA-Z0-9:_]]. *)
Definition allowedRune (r : Z) : bool :=
  ((rune "a" <=? r) && (r <=? rune "z"))
  || ((rune "A" <=? r) && (r <=? rune "Z"))
  || ((rune "0" <=? r) && (r <=? rune "9"))
  || (r =? rune ":") || (r =? rune "_").

Definition allowedByte (c : ascii) : bool := allowedRune (rune c).

(** What the sanitizer writes for one character of the key. *)
Definition sanitizeRune (r : Z) : Z :=
  if allowedRune r then r else rune "_".

(** A string of ASCII runes, byte per rune. *)
Definition stringOfRunes (rs : list Z) : string :=
  string_of_list_ascii (map (fun r => ascii_of_N (Z.to_N r)) rs).


(** ** float64 *)

Definition float64 : Type := spec_float.

Module float64.

Definition prec : Z := 53.
Definition emax : Z := 1024.

(** The conversion of an integer constant: [float64(z)]. *)
Definition ofZ (z : Z) : float64 := binary_normalize prec emax z 0 false.

(** The zero value of the type. *)
Definition zero : float64 := S754_zero false.

(** The binary64 value nearest to [(-1)^neg * m * 10^e10] (ties to even),
    for [0 <= m].  A negative exponent divides: the quotient is taken with
    more than [prec] bits and rounded once, from the place of the
    remainder. *)
Definition ofDecimal (neg : bool) (m e10 : Z) : float64 :=
  if m =? 0 then S754_zero neg
  else if 0 <=? e10 then
    binary_round prec emax neg (Z.to_pos (m * 10 ^ e10)) 0
  else
    let d := 10 ^ (- e10) in
    let k := Z.max 0 (Z.log2 d - Z.log2 m + 64) in
    let n := m * 2 ^ k in
    let q := n / d in
    let r := n mod d in
    let l := if r =? 0 then loc_Exact else loc_Inexact (2 * r ?= d) in
    binary_round_aux prec emax neg q (- k) l.

End float64.

(** ** encoding/json, for the target type [map[string]float64]

    [json.Unmarshal(body, &data)] with [data] of type [jsonData].  The
    result is an error for a body that is not valid JSON (a
    [*SyntaxError]) and for a valid body that does not fit the type (an
    [*UnmarshalTypeError]): a top-level value other than an object or
    [null], a member value other than a number or [null], a number out
    of the range of [float64].  The two kinds of error are not told
    apart here. *)

Module utf16.

Definition surr1 : Z := 0xd800.
Definition surr2 : Z := 0xdc00.
Definition surr3 : Z := 0xe000.
Definition surrSelf : Z := 0x10000.
Definition replacementChar : Z := 0xFFFD.

Definition IsSurrogate (r : Z) : bool := (surr1 <=? r) && (r <? surr3).

Definition DecodeRune (r1 r2 : Z) : Z :=
  if (surr1 <=? r1) && (r1 <? surr2) && (surr2 <=? r2) && (r2 <? surr3)
  then Z.lor (Z.shiftl (r1 - surr1) 10) (r2 - surr2) + surrSelf
  else replacementChar.

End utf16.

Module utf8enc.

Definition byteOf (z : Z) : ascii := ascii_of_N (Z.to_N (z mod 256)).

(** [utf8.EncodeRune] *)
Definition EncodeRune (r : Z) : string :=
  let three (r : Z) :=
    String (byteOf (Z.lor 0xE0 (Z.shiftr r 12)))
   (String (byteOf (Z.lor 0x80 (Z.land (Z.shiftr r 6) 0x3F)))
   (String (byteOf (Z.lor 0x80 (Z.land r 0x3F))) "")) in
  if (r <? 0) || (0x10FFFF <? r) || ((0xD800 <=? r) && (r <=? 0xDFFF))
  then three utf8.RuneError
  else if r <=? 0x7F then String (byteOf r) ""
  else if r <=? 0x7FF then
    String (byteOf (Z.lor 0xC0 (Z.shiftr r 6)))
   (String (byteOf (Z.lor 0x80 (Z.land r 0x3F))) "")
  else if r <=? 0xFFFF then three r
  else
    String (byteOf (Z.lor 0xF0 (Z.shiftr r 18)))
   (String (byteOf (Z.lor 0x80 (Z.land (Z.shiftr r 12) 0x3F)))
   (String (byteOf (Z.lor 0x80 (Z.land (Z.shiftr r 6) 0x3F)))
   (String (byteOf (Z.lor 0x80 (Z.land r 0x3F))) ""))).

End utf8enc.

Module json.
Import Bytes.

Definition isSpace (c : ascii) : bool :=
  match c with
  | " "%char | "009"%char | "013"%char | "010"%char => true
  | _ => false
  end.

Fixpoint skipSpace (s : string) : string :=
  match s with
  | String c t => if isSpace c then skipSpace t else s
  | "" => ""
  end.

Definition digitOf (c : ascii) : option Z :=
  let b := byteZ c in
  if (48 <=? b) && (b <=? 57) then Some (b - 48) else None.

Definition hexOf (c : ascii) : option Z :=
  let b := byteZ c in
  if (48 <=? b) && (b <=? 57) then Some (b - 48)
  else if (97 <=? b) && (b <=? 102) then Some (b - 97 + 10)
  else if (65 <=? b) && (b <=? 70) then Some (b - 65 + 10)
  else None.

(** The digits at the head of [s]: the number they write after [acc],
    how many they are, and the text after them. *)
Fixpoint digits (s : string) (acc : Z) (n : Z) : Z * Z * string :=
  match s with
  | String c t =>
    match digitOf c with
    | Some d => digits t (10 * acc + d) (n + 1)
    | None => (acc, n, s)
    end
  | "" => (acc, n, s)
  end.

(** A number literal at the head of [s]: an optional minus sign; then
    either a single 0 or a digit from 1 to 9 with any digits after it;
    then, optionally, a dot and one digit or more; then, optionally, e
    or E, an optional sign and one digit or more.
    The result is the sign, the digits [m] of the integer and fraction
    parts and the decimal exponent [e10], for the value [m * 10^e10],
    and the text after the literal. *)
Definition number (s : string) : option (bool * Z * Z * string) :=
  let '(neg, s) :=
    match s with
    | String "-" t => (true, t)
    | _ => (false, s)
    end in
  match s with
  | String c t =>
    match digitOf c with
    | None => None
    | Some d =>
      let '(int, _, s) := if d =? 0 then (0, 1, t) else digits t d 1 in
      let frac :=
        match s with
        | String "." t =>
          let '(m, n, s') := digits t int 0 in
          if n =? 0 then None else Some (m, n, s')
        | _ => Some (int, 0, s)
        end in
      match frac with
      | None => None
      | Some (m, nfrac, s) =>
        match s with
        | String c t =>
          if Ascii.eqb c "e" || Ascii.eqb c "E" then
            let '(eneg, t) :=
              match t with
              | String "-" t' => (true, t')
              | String "+" t' => (false, t')
              | _ => (false, t)
              end in
            let '(e, n, s') := digits t 0 0 in
            if n =? 0 then None
            else Some (neg, m, (if eneg then - e else e) - nfrac, s')
          else Some (neg, m, - nfrac, s)
        | "" => Some (neg, m, - nfrac, s)
        end
      end
    end
  | "" => None
  end.

(** The double quote and the backslash. *)
Definition quote : ascii := "034".
Definition backslash : ascii := "092".

(** [getu4]: the rune of an escape of four hexadecimal digits, backslash
    and u before them, at the head of [s]. *)
Definition getu4 (s : string) : option Z :=
  match s with
  | String "092" (String "u" (String h1 (String h2 (String h3 (String h4 _))))) =>
    match hexOf h1, hexOf h2, hexOf h3, hexOf h4 with
    | Some a, Some b, Some c, Some d => Some (((a * 16 + b) * 16 + c) * 16 + d)
    | _, _, _, _ => None
    end
  | _ => None
  end.

(** [unquote]: the text of a string literal, read from after its opening
    quote, and what follows the closing quote.  Escapes are replaced,
    and bytes that are not UTF-8 become U+FFFD. *)
Fixpoint unquote (fuel : nat) (s : string) : option (string * string) :=
  match fuel with
  | O => None
  | S fuel' =>
    let continue (out : string) (rest : string) :=
      match unquote fuel' rest with
      | Some (key, after) => Some (out +:+ key, after)
      | None => None
      end in
    match s with
    | "" => None
    | String c t =>
      if Ascii.eqb c quote then Some ("", t)
      else if Ascii.eqb c backslash then
        match t with
        | "" => None
        | String e t' =>
          match e with
          | "034"%char | "092"%char | "/"%char => continue (String e "") t'
          | "b"%char => continue (String "008" "") t'
          | "f"%char => continue (String "012" "") t'
          | "n"%char => continue (String "010" "") t'
          | "r"%char => continue (String "013" "") t'
          | "t"%char => continue (String "009" "") t'
          | "u"%char =>
            match getu4 s with
            | None => None
            | Some rr =>
              let rest := drop 6 s in
              if utf16.IsSurrogate rr then
                let dec :=
                  match getu4 rest with
                  | Some rr1 => utf16.DecodeRune rr rr1
                  | None => utf16.replacementChar
                  end in
                if dec =? utf16.replacementChar
                then continue (utf8enc.EncodeRune utf16.replacementChar) rest
                else continue (utf8enc.EncodeRune dec) (drop 6 rest)
              else continue (utf8enc.EncodeRune rr) rest
            end
          | _ => None
          end
        end
      else if byteZ c <? 0x20 then None
      else if byteZ c <? utf8.RuneSelf then continue (String c "") t
      else
        let '(rr, size) := utf8.DecodeRuneInString s in
        continue (utf8enc.EncodeRune rr) (drop size s)
    end
  end.

(** The value of a member: a number, or [null], which leaves the zero
    value of the element type. *)
Definition value (s : string) : option (float64 * string) :=
  match s with
  | String "n" (String "u" (String "l" (String "l" t))) =>
    Some (float64.zero, t)
  | _ =>
    match number s with
    | Some (neg, m, e10, t) =>
      match float64.ofDecimal neg m e10 with
      | S754_infinity _ => None
      | v => Some (v, t)
      end
    | None => None
    end
  end.

(** The members of an object, read from the opening quote of a key to
    the closing brace; a key that comes again replaces the earlier
    entry. *)
Fixpoint members (fuel : nat) (s : string) (m : gmap string float64)
  : option (gmap string float64 * string) :=
  match fuel with
  | O => None
  | S fuel' =>
    match s with
    | String "034" t =>
      match unquote (S (String.length t)) t with
      | None => None
      | Some (key, s) =>
        match skipSpace s with
        | String ":" s =>
          match value (skipSpace s) with
          | None => None
          | Some (v, s) =>
            let m' := <[key := v]> m in
            match skipSpace s with
            | String "," s => members fuel' (skipSpace s) m'
            | String "}" s => Some (m', s)
            | _ => None
            end
          end
        | _ => None
        end
      end
    | _ => None
    end
  end.

(** [json.Unmarshal(data, &v)] for [v] a nil [map[string]float64]: the
    map that [v] holds afterwards, or [None] for an error.  [null]
    leaves the map nil, which reads as the empty map. *)
Definition Unmarshal (data : string) : option (gmap string float64) :=
  let onlySpace (s : string) (m : gmap string float64) :=
    match skipSpace s with
    | "" => Some m
    | _ => None
    end in
  match skipSpace data with
  | String "n" (String "u" (String "l" (String "l" t))) => onlySpace t ∅
  | String "{" t =>
    match skipSpace t with
    | String "}" t' => onlySpace t' ∅
    | s =>
      match members (String.length s) s ∅ with
      | Some (m, t') => onlySpace t' m
      | None => None
      end
    end
  | _ => None
  end.

End json.


(** ** prometheus: descriptors and constant metrics

    Only what the exporter uses: descriptors without labels, the check
    of the metric name that [NewDesc] makes, and [MustNewConstMetric],
    which panics on a descriptor that [NewDesc] found invalid. *)

Module prometheus.

Inductive ValueType := CounterValue | GaugeValue | UntypedValue.

(** [*prometheus.Desc], without variable or constant labels.  The error
    that [NewDesc] records in the descriptor is a function of the name:
    it is [err] below, not a field. *)
Record Desc := {
  fqName : string;
  help : string
}.

(** [prometheus.Metric], a constant metric. *)
Record Metric := {
  desc : Desc;
  valType : ValueType;
  val : float64
}.

#[global] Instance Desc_eq_dec : EqDecision Desc.
Proof. solve_decision. Defined.

(** [strings.Join([]string{a, b}, "_")] *)
Definition join2 (a b : string) : string := a +:+ "_" +:+ b.

(** [prometheus.BuildFQName] *)
Definition BuildFQName (namespace subsystem name : string) : string :=
  if String.eqb name "" then ""
  else if negb (String.eqb namespace "") && negb (String.eqb subsystem "")
  then namespace +:+ "_" +:+ subsystem +:+ "_" +:+ name
  else if negb (String.eqb namespace "") then join2 namespace name
  else if negb (String.eqb subsystem "") then join2 subsystem name
  else name.

(** The test on one rune [b] at byte index [i] of a metric name:
    a letter, an underscore, a colon, or a digit that is not in front. *)
Definition isValidRune (i : nat) (b : Z) : bool :=
  ((rune "a" <=? b) && (b <=? rune "z"))
  || ((rune "A" <=? b) && (b <=? rune "Z"))
  || (b =? rune "_") || (b =? rune ":")
  || ((rune "0" <=? b) && (b <=? rune "9") && (0 <? i)%nat).

(** [for i, b := range n { if !(...) { return false } }; return true],
    from byte index [i] on.  The fuel bounds the number of runes. *)
Fixpoint validFrom (fuel : nat) (i : nat) (n : string) : bool :=
  match fuel with
  | O => true
  | S fuel' =>
    match n with
    | "" => true
    | _ => let '(b, w) := utf8.DecodeRuneInString n in
           if negb (isValidRune i b) then false
           else validFrom fuel' (i + w) (Bytes.drop w n)
    end
  end.

(** [model.IsValidMetricName]: the name matches
    [[a-zA-Z_:][a-zA-Z0-9_:]*], which the empty name does not. *)
Definition IsValidMetricName (n : string) : bool :=
  if (String.length n =? 0)%nat then false
  else validFrom (String.length n) 0 n.

(** [fmt.Errorf("%q is not a valid metric name", fqName)] *)
Inductive Error := InvalidMetricName (fqName : string).

(** [prometheus.NewDesc(fqName, help, nil, nil)] *)
Definition NewDesc (fqName help : string) : Desc :=
  {| fqName := fqName; help := help |}.

(** [desc.err], as [NewDesc] sets it.  (Where the library also rejects
    an empty help string, nothing changes for the exporter: its help
    strings are two constants and the raw key, and the empty raw key
    has the empty name.) *)
Definition err (d : Desc) : option Error :=
  if negb (IsValidMetricName (fqName d)) then Some (InvalidMetricName (fqName d))
  else None.

(** [prometheus.NewConstMetric(desc, valueType, value)]: the error of the
    descriptor, or the metric. *)
Definition NewConstMetric (d : Desc) (t : ValueType) (v : float64)
  : Error + Metric :=
  match err d with
  | Some e => inl e
  | None => inr {| desc := d; valType := t; val := v |}
  end.

(** [prometheus.MustNewConstMetric(desc, valueType, value)]: [inl] is
    [panic(err)]. *)
Definition MustNewConstMetric (d : Desc) (t : ValueType) (v : float64)
  : Error + Metric :=
  NewConstMetric d t v.

End prometheus.

(** ** net/http, as far as the exporter uses it *)

Module http.

Definition MethodGet : string := "GET".

(** [*http.Request]: the method, the URL and the credentials set by
    [SetBasicAuth], which go into the Authorization header. *)
Record Request := {
  Method : string;
  URL : string;
  BasicAuth : option (string * string)
}.

(** [*http.Response]: the status code, and what [ioutil.ReadAll] gives on
    the body, the message of the read error or all the bytes. *)
Record Response := {
  StatusCode : Z;
  Body : string + string
}.

(** [*http.Client], as the exporter configures it: a transport whose TLS
    configuration has [InsecureSkipVerify] set or not. *)
Record Client := {
  InsecureSkipVerify : bool
}.

(** [req.SetBasicAuth(username, password)] *)
Definition SetBasicAuth (req : Request) (username password : string) : Request :=
  {| Method := Method req; URL := URL req;
     BasicAuth := Some (username, password) |}.

End http.

(** ** The exporter *)

Import prometheus.

(** The errors of a cycle, by where they come from. *)
Inductive error :=
| UrlError (msg : string)
    (* http.NewRequest: the URI does not parse *)
| ReadError (msg : string)
    (* ioutil.ReadAll *)
| UnmarshalError
    (* json.Unmarshal *)
| ScrapeError (cause : string)
    (* fmt.Errorf("error scraping spring endpoint: %v", err), on the error of client.Do *)
| StatusError (code : Z).
    (* fmt.Errorf("there was an error, response code is %d, expected 200", code) *)

(** What a cycle does, as far as it can be seen from outside, in the
    order in which it happens. *)
Inductive Event :=
| Lock                                   (* e.mutex.Lock() *)
| Unlock                                 (* e.mutex.Unlock() *)
| Do (req : http.Request)                (* e.client.Do(req) *)
| Send (m : Metric)                      (* ch <- m *)
| ReadAll                                (* ioutil.ReadAll(resp.Body) *)
| Close                                  (* resp.Body.Close() *)
| DebugRows (n : nat)                    (* "Result has %d rows" *)
| DebugKey (snakeKey key : string) (value : float64)
                                         (* "Adding key %s (originally %s) with value %v" *)
| Errorf (err : error).                  (* "Error scraping spring endpoint: %s" *)

(** Exporter exports spring metrics for prometheus.  The logger and the
    mutex are not fields here: they show as events. *)
Record Exporter := {
  namespace : string;
  URI : string;
  basicAuthUser : string;
  basicAuthPassword : string;
  client : http.Client;
  up : Desc;
  duration : Desc
}.

(** NewExporter returns an initialized Exporter. *)
Definition NewExporter (namespace : string) (insecure : bool)
    (uri basicAuthUser basicAuthPassword : string) : Exporter :=
  {| URI := uri;
     namespace := namespace;
     basicAuthUser := basicAuthUser;
     basicAuthPassword := basicAuthPassword;
     up := NewDesc (BuildFQName namespace "" "up")
                   "Could spring endpoint be reached";
     duration := NewDesc (BuildFQName namespace "" "response_duration")
                   "How long the spring endpoint took to deliver the metrics";
     client := {| http.InsecureSkipVerify := insecure |} |}.

(** Describe describes all the metrics ever exported by the spring
    endpoint exporter. *)
Definition Describe (e : Exporter) : list Desc := [up e; duration e].

(** json data structure for spring endpoint *)
Abbreviation jsonData := (gmap string float64).

(** Everything outside the exporter that one cycle depends on: whether
    the URI parses ([url.Parse], called by [http.NewRequest]; the message
    of its error), what the transport of the client answers to the
    request (the message of the error of [client.Do], or the response:
    the exporter looks at the response only when the error is nil),
    the seconds that
    [time.Since(startTime)] reads once [Do] is back, and the order in
    which [range] goes through a map, which is any order of its
    entries. *)
Record World := {
  parseURL : string -> option string;
  roundTrip : http.Client -> http.Request -> string + http.Response;
  elapsed : float64;
  rangeOrder : jsonData -> list (string * float64);
  rangeOrder_perm : forall data : jsonData, rangeOrder data ≡ₚ map_to_list data
}.

(** [http.NewRequest(method, url, nil)] *)
Definition NewRequest (w : World) (method url : string) : error + http.Request :=
  match parseURL w url with
  | Some msg => inl (UrlError msg)
  | None => inr {| http.Method := method; http.URL := url;
                   http.BasicAuth := None |}
  end.

(** How a function ends: it returns (with a nil error, where it returns
    one), it returns an error, or it panics. *)
Inductive Result (A : Type) :=
| Done (x : A)
| Failed (err : error)
| Panicked (p : prometheus.Error).

Arguments Done {A} x.
Arguments Failed {A} err.
Arguments Panicked {A} p.

(** A cycle is a computation that leaves a trace of events and ends in
    one of these ways: [return err] and a panic end it at once. *)
Definition Cycle (A : Type) : Type := list Event * Result A.

#[global] Instance Cycle_ret : MRet Cycle := fun A x => ([], Done x).

#[global] Instance Cycle_bind : MBind Cycle := fun A B f c =>
  match c with
  | (tr, Done x) => let '(tr', r) := f x in (tr ++ tr', r)
  | (tr, Failed err) => (tr, Failed err)
  | (tr, Panicked p) => (tr, Panicked p)
  end.

Definition event (ev : Event) : Cycle unit := ([ev], Done tt).

Definition throw {A : Type} (err : error) : Cycle A := ([], Failed err).

(** [if err != nil { return err }] on the result of a call *)
Definition try {A : Type} (r : error + A) : Cycle A :=
  match r with
  | inl err => ([], Failed err)
  | inr x => ([], Done x)
  end.

(** The result of a [Must...] function: the value, or the panic. *)
Definition must {A : Type} (r : prometheus.Error + A) : Cycle A :=
  match r with
  | inl p => ([], Panicked p)
  | inr x => ([], Done x)
  end.

(** [defer]: the event happens when the function returns, however it
    returns, and also when it panics. *)
Definition defer {A : Type} (ev : Event) (body : Cycle A) : Cycle A :=
  let '(tr, r) := body in (tr ++ [ev], r).

(** [for key, value := range data { ... }] *)
Fixpoint forRange {K V : Type} (entries : list (K * V))
    (body : K -> V -> Cycle unit) : Cycle unit :=
  match entries with
  | [] => mret tt
  | (key, value) :: rest => body key value ;; forRange rest body
  end.

(** Collect fetches the stats from configured location and delivers them
    as Prometheus metrics. *)
Definition collect (w : World) (e : Exporter) : Cycle unit :=
  req ← try (NewRequest w http.MethodGet (URI e));
  let req := http.SetBasicAuth req (basicAuthUser e) (basicAuthPassword e) in
  event (Do req);;
  let resp_err := roundTrip w (client e) req in
  m ← must (MustNewConstMetric (duration e) GaugeValue (elapsed w));
  event (Send m);;
  match resp_err with
  | inl err =>
    m ← must (MustNewConstMetric (up e) GaugeValue (float64.ofZ 0));
    event (Send m);;
    throw (ScrapeError err)
  | inr resp =>
    m ← must (MustNewConstMetric (up e) GaugeValue (float64.ofZ 1));
    event (Send m);;
    defer Close (
      event ReadAll;;
      match http.Body resp with
      | inl readErr => throw (ReadError readErr)
      | inr body =>
        if negb (http.StatusCode resp =? 200)
        then throw (StatusError (http.StatusCode resp))
        else
          match json.Unmarshal body with
          | None => throw UnmarshalError
          | Some data =>
            event (DebugRows (size data));;
            forRange (rangeOrder w data) (fun key value =>
              let snakeKey := keyToSnake key in
              event (DebugKey snakeKey key value);;
              m ← must (MustNewConstMetric
                          (NewDesc (BuildFQName (namespace e) "" snakeKey) key)
                          UntypedValue
                          value);
              event (Send m))
          end
      end)
  end.

(** Collects metrics, implements prometheus.Collector: the events of one
    call.  The error that [collect] returns is logged; a panic of
    [collect] is not, it goes through [Collect] to its caller once the
    deferred [Unlock] has run. *)
Definition Collect (w : World) (e : Exporter) : list Event :=
  let '(tr, r) := collect w e in
  [Lock] ++ tr
         ++ match r with
            | Failed err => [Errorf err]
            | Done _ | Panicked _ => []
            end
         ++ [Unlock].

(** The metrics sent on the channel, in the order in which they are
    sent. *)
Definition sent (tr : list Event) : list Metric :=
  omap (fun ev => match ev with Send m => Some m | _ => None end) tr.

(** The metrics that one cycle sends, the error it returns, and the
    panic it ends in (which is also the panic that [Collect] ends in). *)
Definition emitted (w : World) (e : Exporter) : list Metric := sent (fst (collect w e)).

Definition returned (w : World) (e : Exporter) : option error :=
  match snd (collect w e) with
  | Failed err => Some err
  | Done _ | Panicked _ => None
  end.

Definition panicked (w : World) (e : Exporter) : option prometheus.Error :=
  match snd (collect w e) with
  | Panicked p => Some p
  | Done _ | Failed _ => None
  end.

(** The kinds of measurement: the two meta-measurements are those of the
    exporter's own descriptors, a payload measurement is any other. *)
Definition isUp (e : Exporter) (m : Metric) : bool := bool_decide (desc m = up e).

Definition isDuration (e : Exporter) (m : Metric) : bool :=
  bool_decide (desc m = duration e).

Definition isPayload (e : Exporter) (m : Metric) : bool :=
  negb (isUp e m) && negb (isDuration e m).

(** The response that the transport gave in this cycle, if the request
    was made and answered. *)
Definition received (w : World) (e : Exporter) : option http.Response :=
  match NewRequest w http.MethodGet (URI e) with
  | inl _ => None
  | inr req =>
    match roundTrip w (client e)
            (http.SetBasicAuth req (basicAuthUser e) (basicAuthPassword e)) with
    | inl _ => None
    | inr resp => Some resp
    end
  end.

(** The request failed at the transport level. *)
Definition transportFailed (w : World) (e : Exporter) : bool :=
  match NewRequest w http.MethodGet (URI e) with
  | inl _ => false
  | inr req =>
    match roundTrip w (client e)
            (http.SetBasicAuth req (basicAuthUser e) (basicAuthPassword e)) with
    | inl _ => true
    | inr _ => false
    end
  end.

(** The request of a cycle, once it is built. *)
Definition request (e : Exporter) : http.Request :=
  http.SetBasicAuth
    {| http.Method := http.MethodGet; http.URL := URI e; http.BasicAuth := None |}
    (basicAuthUser e) (basicAuthPassword e).

(** The three calls of [MustNewConstMetric] of a cycle: each gives the
    metric, or the panic. *)
Definition durationMetric (e : Exporter) (secs : float64) : prometheus.Error + Metric :=
  MustNewConstMetric (duration e) GaugeValue secs.

Definition upMetric (e : Exporter) (v : Z) : prometheus.Error + Metric :=
  MustNewConstMetric (up e) GaugeValue (float64.ofZ v).

(** The descriptor that the loop builds for a raw key. *)
Definition payloadDesc (e : Exporter) (key : string) : Desc :=
  NewDesc (BuildFQName (namespace e) "" (keyToSnake key)) key.

Definition payloadMetric (e : Exporter) (entry : string * float64)
  : prometheus.Error + Metric :=
  MustNewConstMetric (payloadDesc e (fst entry)) UntypedValue (snd entry).

(** Metrics, as results of [MustNewConstMetric] that did not panic. *)
Definition built (ms : list Metric) : list (prometheus.Error + Metric) :=
  map inr ms.

(** Both descriptors of the exporter have a valid name: no call of
    [MustNewConstMetric] on them panics. *)
Definition validMeta (e : Exporter) : bool :=
  IsValidMetricName (fqName (duration e)) && IsValidMetricName (fqName (up e)).

(** The namespaces with which [NewExporter] gives valid descriptors. *)
Definition validNamespace (ns : string) : bool :=
  String.eqb ns "" || IsValidMetricName ns.

(** The raw keys for which the loop can build a metric. *)
Definition validKey (e : Exporter) (key : string) : bool :=
  IsValidMetricName (fqName (payloadDesc e key)).

(** The loop over these entries, in this order: its events, up to the
    entry whose metric cannot be built, and the panic there. *)
Fixpoint payloadEvents (e : Exporter) (entries : list (string * float64))
  : list Event :=
  match entries with
  | [] => []
  | entry :: rest =>
    DebugKey (keyToSnake (fst entry)) (fst entry) (snd entry)
    :: match payloadMetric e entry with
       | inl _ => []
       | inr m => Send m :: payloadEvents e rest
       end
  end.

Fixpoint payloadPanic (e : Exporter) (entries : list (string * float64))
  : option prometheus.Error :=
  match entries with
  | [] => None
  | entry :: rest =>
    match payloadMetric e entry with
    | inl p => Some p
    | inr _ => payloadPanic e rest
    end
  end.

(** How the loop over these entries ends. *)
Definition payloadResult (e : Exporter) (entries : list (string * float64))
  : Result unit :=
  match payloadPanic e entries with
  | Some p => Panicked p
  | None => Done tt
  end.

(** The entries that the loop gets through: those before the first one
    whose metric cannot be built. *)
Fixpoint served (e : Exporter) (entries : list (string * float64))
  : list (string * float64) :=
  match entries with
  | [] => []
  | entry :: rest =>
    match payloadMetric e entry with
    | inl _ => []
    | inr _ => entry :: served e rest
    end
  end.

(** What a call of [Collect] does between [Lock] and [Unlock]. *)
Definition cycleBody (w : World) (e : Exporter) : list Event :=
  fst (collect w e)
  ++ match snd (collect w e) with
     | Failed err => [Errorf err]
     | Done _ | Panicked _ => []
     end.

(** ** Worlds to run the exporter in *)

Module Worlds.

Definition inOrder (data : jsonData) : list (string * float64) := map_to_list data.

Definition inOrder_perm (data : jsonData) : inOrder data ≡ₚ map_to_list data :=
  Permutation_refl (map_to_list data).

(** [url.Parse] on the two URIs used below: a lone colon has no
    protocol scheme. *)
Definition parse (url : string) : option string :=
  if String.eqb url ":" then Some "missing protocol scheme" else None.

(** The endpoint answers [code] and the body reads as [body]. *)
Definition answers (code : Z) (body : string + string) (secs : float64) : World :=
  {| parseURL := parse;
     roundTrip := fun _ _ => inr {| http.StatusCode := code; http.Body := body |};
     elapsed := secs;
     rangeOrder := inOrder;
     rangeOrder_perm := inOrder_perm |}.

(** The endpoint cannot be reached. *)
Definition unreachable (msg : string) (secs : float64) : World :=
  {| parseURL := parse;
     roundTrip := fun _ _ => inl msg;
     elapsed := secs;
     rangeOrder := inOrder;
     rangeOrder_perm := inOrder_perm |}.

Definition spring : Exporter :=
  NewExporter "spring" false "http://localhost:8080/metrics" "" "".

(** An exporter configured with a URI that does not parse. *)
Definition misconfigured : Exporter := NewExporter "spring" false ":" "" "".

(** An exporter whose namespace is not the start of a metric name. *)
Definition myApp : Exporter :=
  NewExporter "my-app" false "http://localhost:8080/metrics" "" "".

(** A JSON string literal. *)
Definition q (s : string) : string :=
  String json.quote (s +:+ String json.quote "").

(** A payload with two raw keys that the sanitizer maps to one name. *)
Definition collidingBody : string :=
  "{" +:+ q "a.b" +:+ ": 1, " +:+ q "a_b" +:+ ": 1}".

(** A payload of two entries. *)
Definition jvmBody : string :=
  "{" +:+ q "jvm.memory.used" +:+ ": 12345.0, " +:+ q "disk free" +:+ ": 999.0}".

(** A payload whose one key is the empty string. *)
Definition emptyKeyBody : string := "{" +:+ q "" +:+ ": 1}".

(** A payload with the empty key and another key. *)
Definition mixedBody : string :=
  "{" +:+ q "" +:+ ": 1, " +:+ q "a" +:+ ": 2}".

(** A quarter of a second. *)
Definition quarter : float64 := float64.ofDecimal false 25 (-2).

End Worlds.

(** ** Two concurrent calls of [Collect]

    The collector may call [Collect] from several goroutines.  Two calls
    on one exporter are modelled here as two sequences of events, taken
    one event at a time in any order that the mutex of the exporter
    allows: [Lock] blocks while the mutex is locked, [Unlock] releases
    it.  Each call runs in a world of its own, the network as it is when
    that call makes its request.  A call whose cycle panics unlocks the
    mutex as any other, by the deferred [Unlock]; what the caller does
    with the panic is not part of this model. *)

Module Concurrent.

Inductive Call := CallA | CallB.

#[global] Instance Call_eq_dec : EqDecision Call.
Proof. solve_decision. Defined.

Definition other (c : Call) : Call :=
  match c with
  | CallA => CallB
  | CallB => CallA
  end.

(** What each of the two calls has still to do. *)
Definition pick {A : Type} (c : Call) (p : A * A) : A :=
  match c with
  | CallA => fst p
  | CallB => snd p
  end.

Definition update {A : Type} (c : Call) (x : A) (p : A * A) : A * A :=
  match c with
  | CallA => (x, snd p)
  | CallB => (fst p, x)
  end.

Record State := {
  locked : bool;                            (* the state of e.mutex *)
  pending : list Event * list Event;        (* the rest of each call *)
  trace : list (Call * Event)               (* what has happened so far, in order *)
}.

(** What the call [c] has still to do. *)
Definition todo (st : State) (c : Call) : list Event := pick c (pending st).

(** One step of the call [c]: its next event happens, if it can.  There
    is no step for a call that is over, for [Lock] on a locked mutex
    (the call waits) and for [Unlock] on an unlocked mutex (a fatal
    error of the Go runtime). *)
Definition step (c : Call) (st : State) : option State :=
  match todo st c with
  | [] => None
  | ev :: rest =>
    let next (l : bool) :=
      {| locked := l;
         pending := update c rest (pending st);
         trace := trace st ++ [(c, ev)] |} in
    match ev with
    | Lock => if locked st then None else Some (next true)
    | Unlock => if locked st then Some (next false) else None
    | _ => Some (next (locked st))
    end
  end.

(** A run under a schedule, which names the call that takes each step. *)
Fixpoint run (schedule : list Call) (st : State) : option State :=
  match schedule with
  | [] => Some st
  | c :: rest =>
    match step c st with
    | Some st' => run rest st'
    | None => None
    end
  end.

(** Both calls are about to start. *)
Definition init (w : Call -> World) (e : Exporter) : State :=
  {| locked := false;
     pending := (Collect (w CallA) e, Collect (w CallB) e);
     trace := [] |}.

(** The events of a call, marked with the call. *)
Definition by_ (c : Call) (evs : list Event) : list (Call * Event) :=
  map (pair c) evs.

(** Programs of the shape of [Collect]: [Lock], a body that does not
    touch the mutex, [Unlock]. *)
Definition quiet (ev : Event) : Prop := ev <> Lock /\ ev <> Unlock.

Definition guarded (body : list Event) : list Event := Lock :: body ++ [Unlock].

Section Guarded.

(** The body of each call. *)
Variable body : Call -> list Event.

Definition prog (c : Call) : list Event := guarded (body c).

Definition len (c : Call) : nat := S (S (length (body c))).

(** A call that has done [n] events holds the mutex when it is past its
    [Lock] and before the end of its [Unlock]. *)
Definition holds (c : Call) (n : nat) : bool :=
  (0 <? n)%nat && (n <? len c)%nat.

(** The invariant of the runs: the call [c] has done its first [n]
    events, then the other call its first [m] events, and the other call
    has done nothing unless [c] is over. *)
Definition Inv (st : State) (c : Call) (n m : nat) : Prop :=
  (n <= len c)%nat /\ (m <= len (other c))%nat
  /\ (m = 0%nat \/ n = len c)
  /\ todo st c = drop n (prog c)
  /\ todo st (other c) = drop m (prog (other c))
  /\ trace st = by_ c (take n (prog c)) ++ by_ (other c) (take m (prog (other c)))
  /\ locked st = holds c n || holds (other c) m.

End Guarded.

(** The worlds of an example: the endpoint answers the first call and
    is down for the second. *)
Definition upThenDown (c : Call) : World :=
  match c with
  | CallA => Worlds.answers 200 (inr "{}") Worlds.quarter
  | CallB => Worlds.unreachable "connection refused" Worlds.quarter
  end.

(** A schedule of an example: the second call gets the mutex first and
    runs to its end, then the first call begins. *)
Definition secondGoesFirst : list Call :=
  [CallB; CallB; CallB; CallB; CallB; CallB; CallA; CallA].

End Concurrent.

(** ** Reading a trace *)

Module Trace.

Definition isLock (ev : Event) : bool :=
  match ev with Lock => true | _ => false end.

Definition isUnlock (ev : Event) : bool :=
  match ev with Unlock => true | _ => false end.

Definition isDo (ev : Event) : bool :=
  match ev with Do _ => true | _ => false end.

Definition isSend (ev : Event) : bool :=
  match ev with Send _ => true | _ => false end.

Definition isReadAll (ev : Event) : bool :=
  match ev with ReadAll => true | _ => false end.

Definition isClose (ev : Event) : bool :=
  match ev with Close => true | _ => false end.

Definition isDebugKey (ev : Event) : bool :=
  match ev with DebugKey _ _ _ => true | _ => false end.

Definition isErrorf (ev : Event) : bool :=
  match ev with Errorf _ => true | _ => false end.

(** How many events of a kind a trace has. *)
Definition count (p : Event -> bool) (tr : list Event) : nat :=
  length (List.filter p tr).

(** In what has happened, the call [c] has done an event of the kind
    [p]. *)
Definition did (c : Concurrent.Call) (p : Event -> bool)
    (tr : list (Concurrent.Call * Event)) : bool :=
  existsb (fun x => bool_decide (fst x = c) && p (snd x)) tr.

(** The call [c] is in its critical section: it has locked the mutex
    and has not unlocked it yet. *)
Definition inside (c : Concurrent.Call) (tr : list (Concurrent.Call * Event)) : bool :=
  did c isLock tr && negb (did c isUnlock tr).

End Trace.

Module MoreWorlds.

(** A world like [w], but whose maps are gone through in the opposite
    order. *)
Definition backwards (w : World) : World :=
  {| parseURL := parseURL w;
     roundTrip := roundTrip w;
     elapsed := elapsed w;
     rangeOrder := fun data => rev (rangeOrder w data);
     rangeOrder_perm := fun data =>
       Permutation_trans (Permutation_sym (Permutation_rev (rangeOrder w data)))
                         (rangeOrder_perm w data) |}.

End MoreWorlds.

(** * Properties *)

(** ** Bytes, UTF-8 decoding and the character class *)

Module BytesFacts.
Import Bytes.

Lemma byteZ_range c : 0 <= byteZ c < 256.
Proof.
  unfold byteZ. pose proof (N_ascii_bounded c) as H. lia.
Qed.

Lemma ascii_of_byteZ c : ascii_of_N (Z.to_N (byteZ c)) = c.
Proof.
  unfold byteZ. rewrite N2Z.id. apply ascii_N_embedding.
Qed.

Lemma byteZ_of_small z :
  0 <= z < 256 -> byteZ (ascii_of_N (Z.to_N z)) = z.
Proof.
  intros Hz. unfold byteZ. rewrite N_ascii_embedding; lia.
Qed.

Lemma length_drop n s :
  String.length (drop n s) = (String.length s - n)%nat.
Proof.
  revert s. induction n as [|n IH]; intros [|c t]; simpl; auto.
Qed.

Lemma at_0 c t : at_ (String c t) 0 = byteZ c.
Proof. reflexivity. Qed.

Lemma at_range s i : 0 <= at_ s i < 256.
Proof.
  unfold at_. destruct (String.get i s); [apply byteZ_range | lia].
Qed.

Lemma lor_ge_l a b : 0 <= a -> 0 <= b -> a <= Z.lor a b.
Proof.
  intros Ha Hb. pose proof (Z.sub_lor_l_same_l b a) as E.
  assert (0 <= Z.land b (Z.lnot a)) by (apply Z.land_nonneg; auto).
  lia.
Qed.

Lemma lor_ge_r a b : 0 <= a -> 0 <= b -> b <= Z.lor a b.
Proof.
  intros Ha Hb. rewrite Z.lor_comm. apply lor_ge_l; assumption.
Qed.

Lemma land_mask63 x : Z.land x 63 = x mod 64.
Proof. change 63 with (Z.ones 6). apply Z.land_ones. lia. Qed.

Lemma land_mask31 x : Z.land x 31 = x mod 32.
Proof. change 31 with (Z.ones 5). apply Z.land_ones. lia. Qed.

Lemma land_mask15 x : Z.land x 15 = x mod 16.
Proof. change 15 with (Z.ones 4). apply Z.land_ones. lia. Qed.

Lemma land_mask7 x : Z.land x 7 = x mod 8.
Proof. change 7 with (Z.ones 3). apply Z.land_ones. lia. Qed.

End BytesFacts.

Module utf8Facts.
Import Bytes BytesFacts utf8.

(** A byte below [RuneSelf] decodes to itself, with width 1. *)
Lemma decode_ascii c t :
  byteZ c < RuneSelf ->
  DecodeRuneInString (String c t) = (byteZ c, 1%nat).
Proof.
  intros Hc. unfold RuneSelf in Hc. pose proof (byteZ_range c) as Hr.
  unfold DecodeRuneInString. rewrite at_0. simpl String.length.
  change (S (String.length t) <? 1)%nat with false. cbv iota.
  unfold first. destruct (Z.ltb_spec (byteZ c) 128) as [_|?]; [|lia].
  change (as_ <=? as_) with true. cbv iota.
  change (Z.testbit as_ 0) with false. cbv iota.
  change (Z.lnot 0) with (-1). rewrite Z.land_m1_r, Z.land_0_r, Z.lor_0_r.
  reflexivity.
Qed.

Ltac divlia := Z.to_euclidean_division_equations; lia.

Ltac lor_bound :=
  rewrite ?land_mask63, ?land_mask31, ?land_mask15, ?land_mask7,
          ?Z.shiftl_mul_pow2 by lia;
  repeat match goal with
  | |- context [Z.lor ?a ?b] =>
      lazymatch a with context [Z.lor _ _] => fail | _ => idtac end;
      lazymatch b with context [Z.lor _ _] => fail | _ => idtac end;
      let Ha := fresh in let Hb := fresh in
      assert (Ha : 0 <= a) by divlia;
      assert (Hb : 0 <= b) by divlia;
      pose proof (lor_ge_l a b Ha Hb);
      pose proof (lor_ge_r a b Ha Hb);
      generalize dependent (Z.lor a b); intros
  end.

Ltac second_byte sX sz lo hi t b1 Hbad :=
  change (as_ <=? sX) with false; cbv iota;
  change (Z.to_nat (Z.land sX 7)) with sz;
  change (acceptRanges (Z.shiftr sX 4)) with (lo, hi);
  cbn [fst snd];
  destruct (Nat.ltb_spec (S (String.length t)) sz); [exact Hbad|];
  destruct (Z.ltb_spec b1 lo); [exact Hbad|];
  destruct (Z.ltb_spec hi b1); [exact Hbad|];
  cbn [orb].

Ltac next_byte b Hbad :=
  destruct (Z.ltb_spec b 128); [exact Hbad|];
  destruct (Z.ltb_spec 191 b); [exact Hbad|];
  cbn [orb].

Ltac rune_bound := cbn [Nat.leb fst snd]; split; [lia|]; lor_bound; divlia.

(** A first byte of [RuneSelf] or more never yields an ASCII rune, and
    the step consumes between one byte and the whole string. *)
Lemma decode_nonascii c t :
  RuneSelf <= byteZ c ->
  (1 <= snd (DecodeRuneInString (String c t)) <= S (String.length t))%nat
  /\ RuneSelf <= fst (DecodeRuneInString (String c t)).
Proof.
  intros Hc. unfold RuneSelf in *. pose proof (byteZ_range c) as Hr.
  unfold DecodeRuneInString. rewrite at_0. simpl String.length.
  change (S (String.length t) <? 1)%nat with false. cbv iota.
  pose proof (at_range (String c t) 1) as R1.
  pose proof (at_range (String c t) 2) as R2.
  pose proof (at_range (String c t) 3) as R3.
  generalize dependent (at_ (String c t) 1). intros b1 R1.
  generalize dependent (at_ (String c t) 2). intros b2 R2.
  generalize dependent (at_ (String c t) 3). intros b3 R3.
  generalize dependent (byteZ c). intros b0 Hc Hr.
  assert (Hbad : (1 <= snd (RuneError, 1%nat) <= S (String.length t))%nat
                 /\ 128 <= fst (RuneError, 1%nat))
    by (cbn [fst snd]; unfold RuneError; lia).
  assert (Hxx : (1 <= snd (Z.lor (Z.land b0 (Z.lnot (-1)))
                                 (Z.land RuneError (-1)), 1%nat)
                   <= S (String.length t))%nat
                /\ 128 <= fst (Z.lor (Z.land b0 (Z.lnot (-1)))
                                     (Z.land RuneError (-1)), 1%nat))
    by (change (Z.lnot (-1)) with 0;
        rewrite Z.land_0_r, Z.land_m1_r, Z.lor_0_l; exact Hbad).
  unfold first, mask2, mask3, mask4, maskx, locb, hicb.
  destruct (Z.ltb_spec b0 128); [lia|].
  destruct (Z.ltb_spec b0 194).
  { change (as_ <=? xx) with true. cbv iota.
    change (Z.testbit xx 0) with true. exact Hxx. }
  destruct (Z.ltb_spec b0 224).
  { second_byte s1 2%nat 128 191 t b1 Hbad. rune_bound. }
  destruct (Z.eqb_spec b0 224).
  { second_byte s2 3%nat 160 191 t b1 Hbad. next_byte b2 Hbad. rune_bound. }
  destruct (Z.ltb_spec b0 237).
  { second_byte s3 3%nat 128 191 t b1 Hbad. next_byte b2 Hbad. rune_bound. }
  destruct (Z.eqb_spec b0 237).
  { second_byte s4 3%nat 128 159 t b1 Hbad. next_byte b2 Hbad. rune_bound. }
  destruct (Z.ltb_spec b0 240).
  { second_byte s3 3%nat 128 191 t b1 Hbad. next_byte b2 Hbad. rune_bound. }
  destruct (Z.eqb_spec b0 240).
  { second_byte s5 4%nat 144 191 t b1 Hbad. next_byte b2 Hbad.
    next_byte b3 Hbad. rune_bound. }
  destruct (Z.ltb_spec b0 244).
  { second_byte s6 4%nat 128 191 t b1 Hbad. next_byte b2 Hbad.
    next_byte b3 Hbad. rune_bound. }
  destruct (Z.eqb_spec b0 244).
  { second_byte s7 4%nat 128 143 t b1 Hbad. next_byte b2 Hbad.
    next_byte b3 Hbad. rune_bound. }
  change (as_ <=? xx) with true. cbv iota.
  change (Z.testbit xx 0) with true. exact Hxx.
Qed.

(** Whatever the first byte, a decoding step of a non-empty string
    consumes between one byte and the whole string. *)
Lemma decode_width c t :
  (1 <= snd (DecodeRuneInString (String c t)) <= S (String.length t))%nat.
Proof.
  destruct (Z.lt_ge_cases (byteZ c) RuneSelf) as [H|H].
  - rewrite decode_ascii by exact H. simpl. lia.
  - apply decode_nonascii, H.
Qed.

End utf8Facts.

(** ** The key sanitizer *)

Module SanitizerFacts.
Import Bytes BytesFacts utf8 utf8Facts.

(** The pattern matches exactly the runes outside [[a-zA-Z0-9:_]]. *)
Lemma keyRegExp_match r :
  regexp.matchRune keyRegExp r = negb (allowedRune r).
Proof.
  unfold regexp.matchRune, keyRegExp, allowedRune, regexp.inRange.
  cbn [regexp.negated regexp.ranges existsb fst snd xorb].
  f_equal. rewrite orb_false_r, !orb_assoc.
  assert (E : forall c, (c <=? r) && (r <=? c) = (r =? c)).
  { intros c. destruct (Z.leb_spec c r), (Z.leb_spec r c), (Z.eqb_spec r c);
      simpl; auto; lia. }
  rewrite !E. reflexivity.
Qed.

Lemma allowedRune_ascii r : allowedRune r = true -> 0 <= r < RuneSelf.
Proof.
  unfold allowedRune, RuneSelf.
  change (rune "a") with 97; change (rune "z") with 122;
  change (rune "A") with 65; change (rune "Z") with 90;
  change (rune "0") with 48; change (rune "9") with 57;
  change (rune ":") with 58; change (rune "_") with 95.
  rewrite !orb_true_iff, !andb_true_iff, !Z.leb_le, !Z.eqb_eq. lia.
Qed.

Lemma sanitizeRune_ascii r : 0 <= sanitizeRune r < RuneSelf.
Proof.
  unfold sanitizeRune. destruct (allowedRune r) eqn:E.
  - apply allowedRune_ascii, E.
  - unfold RuneSelf. change (rune "_") with 95. lia.
Qed.

Lemma sanitizeRune_allowed r : allowedRune (sanitizeRune r) = true.
Proof.
  unfold sanitizeRune. destruct (allowedRune r) eqn:E; [exact E | reflexivity].
Qed.

Lemma sanitizeRune_idem r : sanitizeRune (sanitizeRune r) = sanitizeRune r.
Proof.
  unfold sanitizeRune at 1. rewrite sanitizeRune_allowed. reflexivity.
Qed.

(** Enough fuel: the decoding loop is done once the string is used up. *)
Lemma runesFrom_fuel fuel s :
  (String.length s <= fuel)%nat -> runesFrom fuel s = runes s.
Proof.
  unfold runes. remember (String.length s) as n eqn:Hn.
  revert fuel s Hn. induction n as [n IH] using lt_wf_ind.
  intros fuel s Hn Hle. destruct s as [|c t].
  - destruct fuel, n; reflexivity.
  - simpl in Hn. subst n. destruct fuel as [|fuel]; [lia|].
    cbn [runesFrom].
    pose proof (decode_width c t) as Hw.
    destruct (DecodeRuneInString (String c t)) as [r w]. cbn [snd] in Hw.
    f_equal.
    pose proof (length_drop w (String c t)) as Hd. simpl String.length in Hd.
    rewrite (IH (String.length (drop w (String c t)))) by (try reflexivity; lia).
    symmetry. apply (IH (String.length (drop w (String c t))));
      try reflexivity; lia.
Qed.

(** The replacement loop writes, rune by rune, the sanitized rune. *)
Lemma replaceAll_runes fuel s :
  (String.length s <= fuel)%nat ->
  regexp.replaceAll fuel keyRegExp s "_"
  = stringOfRunes (map sanitizeRune (runesFrom fuel s)).
Proof.
  revert s. induction fuel as [|fuel IH]; intros s Hle.
  - destruct s; [reflexivity | simpl in Hle; lia].
  - destruct s as [|c t]; [reflexivity|].
    cbn [regexp.replaceAll runesFrom].
    pose proof (decode_width c t) as Hw.
    destruct (Z.lt_ge_cases (byteZ c) RuneSelf) as [Hc|Hc].
    + rewrite decode_ascii by exact Hc.
      rewrite keyRegExp_match. cbn [drop take map].
      rewrite IH by (simpl in Hle; lia).
      unfold stringOfRunes, sanitizeRune. cbn [map string_of_list_ascii].
      destruct (allowedRune (byteZ c)); cbn [negb].
      * rewrite ascii_of_byteZ. reflexivity.
      * reflexivity.
    + destruct (decode_nonascii c t Hc) as [_ Hr].
      destruct (DecodeRuneInString (String c t)) as [r w].
      cbn [fst snd] in *.
      rewrite keyRegExp_match.
      assert (Hna : allowedRune r = false).
      { destruct (allowedRune r) eqn:E; [|reflexivity].
        apply allowedRune_ascii in E. lia. }
      rewrite Hna. cbn [negb map].
      rewrite IH.
      * unfold stringOfRunes, sanitizeRune. rewrite Hna. reflexivity.
      * pose proof (length_drop w (String c t)) as Hd.
        simpl String.length in *. lia.
Qed.

(** A string of ASCII runes decodes to these runes. *)
Lemma runes_stringOfRunes rs :
  Forall (fun r => 0 <= r < RuneSelf) rs -> runes (stringOfRunes rs) = rs.
Proof.
  unfold runes. induction 1 as [|r rs Hr _ IH]; [reflexivity|].
  unfold stringOfRunes in *. cbn [map string_of_list_ascii String.length runesFrom].
  unfold RuneSelf in Hr.
  rewrite decode_ascii by (rewrite byteZ_of_small; unfold RuneSelf; lia).
  rewrite byteZ_of_small by lia. cbn [drop]. rewrite IH. reflexivity.
Qed.

Lemma keyToSnake_runes s :
  keyToSnake s = stringOfRunes (map sanitizeRune (runes s)).
Proof.
  unfold keyToSnake, regexp.ReplaceAllString. rewrite replaceAll_runes by lia.
  rewrite runesFrom_fuel by lia. reflexivity.
Qed.

Lemma runes_keyToSnake s :
  runes (keyToSnake s) = map sanitizeRune (runes s).
Proof.
  rewrite keyToSnake_runes. apply runes_stringOfRunes.
  apply Forall_map, Forall_forall. intros r _. apply sanitizeRune_ascii.
Qed.

End SanitizerFacts.

(** C3: the key sanitizer is defined on every string, the empty one
    included; read character by character (rune by rune, as the regexp
    engine reads its input), its result has exactly one character per
    character of the key: a character of [[a-zA-Z0-9:_]] is kept as it is,
    at its place, and any other character becomes exactly one underscore,
    so a run of disallowed characters gives as many underscores. *)
Theorem keyToSnake_per_character :
  keyToSnake "" = ""
  /\ forall s : string,
       keyToSnake s = stringOfRunes (map sanitizeRune (utf8.runes s))
       /\ utf8.runes (keyToSnake s)
          = map (fun r => if allowedRune r then r else rune "_") (utf8.runes s)
       /\ length (utf8.runes (keyToSnake s)) = length (utf8.runes s)
       /\ forall i : nat,
            utf8.runes (keyToSnake s) !! i
            = (fun r => if allowedRune r then r else rune "_")
                <$> utf8.runes s !! i.
Proof.
  split; [reflexivity|]. intros s.
  pose proof (SanitizerFacts.runes_keyToSnake s) as E.
  unfold sanitizeRune in E at 1.
  repeat split.
  - apply SanitizerFacts.keyToSnake_runes.
  - exact E.
  - rewrite E. apply length_map.
  - intros i. rewrite E. apply list_lookup_fmap.
Qed.

Module IdempotenceFacts.
Import Bytes BytesFacts SanitizerFacts.

Lemma bytes_stringOfRunes rs :
  list_ascii_of_string (stringOfRunes rs)
  = map (fun r => ascii_of_N (Z.to_N r)) rs.
Proof. apply list_ascii_of_string_of_list_ascii. Qed.

Lemma allowedByte_sanitized r :
  allowedByte (ascii_of_N (Z.to_N (sanitizeRune r))) = true.
Proof.
  unfold allowedByte, rune.
  pose proof (sanitizeRune_ascii r) as H. unfold utf8.RuneSelf in H.
  rewrite byteZ_of_small by lia. apply sanitizeRune_allowed.
Qed.

Lemma replaceAll_fuel fuel s :
  (String.length s <= fuel)%nat ->
  regexp.replaceAll fuel keyRegExp s "_" = keyToSnake s.
Proof.
  intros H. rewrite replaceAll_runes by exact H.
  rewrite runesFrom_fuel by exact H.
  symmetry. apply keyToSnake_runes.
Qed.

End IdempotenceFacts.

(** C4: the key sanitizer is total (its loop is done within as many
    steps as the key has bytes, whatever the key) and idempotent, and its
    result has only characters of [[A-Za-z0-9:_]]. *)
Theorem keyToSnake_idempotent (s : string) :
  keyToSnake (keyToSnake s) = keyToSnake s
  /\ forallb allowedByte (list_ascii_of_string (keyToSnake s)) = true
  /\ forall k : nat,
       regexp.replaceAll (String.length s + k) keyRegExp s "_" = keyToSnake s.
Proof.
  repeat split.
  - rewrite (SanitizerFacts.keyToSnake_runes (keyToSnake s)).
    rewrite SanitizerFacts.runes_keyToSnake, map_map.
    rewrite (map_ext _ sanitizeRune)
      by (intros r; apply SanitizerFacts.sanitizeRune_idem).
    symmetry. apply SanitizerFacts.keyToSnake_runes.
  - rewrite SanitizerFacts.keyToSnake_runes,
            IdempotenceFacts.bytes_stringOfRunes, map_map.
    apply forallb_forall. intros c Hc. apply in_map_iff in Hc.
    destruct Hc as [r [<- _]]. apply IdempotenceFacts.allowedByte_sanitized.
  - intros k. apply IdempotenceFacts.replaceAll_fuel. lia.
Qed.

(** ** More on the key sanitizer *)

Module SanitizerMore.
Import Bytes BytesFacts utf8 utf8Facts SanitizerFacts.

Lemma length_stringOfRunes rs : String.length (stringOfRunes rs) = length rs.
Proof.
  unfold stringOfRunes. induction rs as [|r rs IH]; [reflexivity|].
  cbn [map string_of_list_ascii String.length]. rewrite IH. reflexivity.
Qed.

(** There are no more runes than bytes. *)
Lemma length_runesFrom fuel s :
  (length (runesFrom fuel s) <= String.length s)%nat.
Proof.
  revert s. induction fuel as [|fuel IH]; intros s; [cbn; lia|].
  destruct s as [|c t]; [cbn; lia|].
  cbn [runesFrom].
  pose proof (decode_width c t) as Hw.
  destruct (DecodeRuneInString (String c t)) as [r w]. cbn [snd] in Hw.
  cbn [length]. specialize (IH (drop w (String c t))).
  rewrite length_drop in IH. simpl String.length in *. lia.
Qed.

Lemma runes_nil s : runes s = [] <-> s = "".
Proof.
  split; [|intros ->; reflexivity].
  destruct s as [|c t]; [reflexivity|].
  unfold runes. cbn [String.length runesFrom].
  destruct (DecodeRuneInString (String c t)). discriminate.
Qed.

Lemma string_of_bytes s :
  stringOfRunes (map byteZ (list_ascii_of_string s)) = s.
Proof.
  unfold stringOfRunes. rewrite map_map.
  rewrite (map_ext _ (fun c => c)) by apply ascii_of_byteZ.
  rewrite map_id. apply string_of_list_ascii_of_string.
Qed.

Lemma allowedByte_ascii c : allowedByte c = true -> 0 <= byteZ c < RuneSelf.
Proof. apply allowedRune_ascii. Qed.

Lemma length_keyToSnake s :
  String.length (keyToSnake s) = length (runes s).
Proof.
  rewrite keyToSnake_runes, length_stringOfRunes, length_map. reflexivity.
Qed.

End SanitizerMore.

(** X1: the sanitized key has exactly one byte for each character of
    the key, so it is never longer than the key. *)
Theorem keyToSnake_length (s : string) :
  String.length (keyToSnake s) = length (utf8.runes s)
  /\ (String.length (keyToSnake s) <= String.length s)%nat.
Proof.
  rewrite SanitizerMore.length_keyToSnake.
  split; [reflexivity|]. apply SanitizerMore.length_runesFrom.
Qed.

(** X2: the keys that the sanitizer leaves as they are are exactly those
    that have only characters of the class [[a-zA-Z0-9:_]]. *)
Theorem keyToSnake_fixed_points (s : string) :
  keyToSnake s = s <-> forallb allowedByte (list_ascii_of_string s) = true.
Proof.
  split.
  - intros <-. rewrite SanitizerFacts.keyToSnake_runes,
      IdempotenceFacts.bytes_stringOfRunes, map_map.
    apply forallb_forall. intros c Hc. apply in_map_iff in Hc.
    destruct Hc as [r [<- _]]. apply IdempotenceFacts.allowedByte_sanitized.
  - intros Hall. rewrite forallb_forall in Hall.
    assert (Hr : utf8.runes s = map Bytes.byteZ (list_ascii_of_string s)).
    { rewrite <- (SanitizerMore.string_of_bytes s) at 1.
      apply SanitizerFacts.runes_stringOfRunes.
      apply Forall_map, Forall_forall. intros c Hc.
      apply SanitizerMore.allowedByte_ascii, Hall.
      apply list_elem_of_In, Hc. }
    rewrite SanitizerFacts.keyToSnake_runes, Hr, map_map.
    rewrite (map_ext_in _ Bytes.byteZ).
    + apply SanitizerMore.string_of_bytes.
    + intros c Hc. unfold sanitizeRune.
      specialize (Hall c Hc). unfold allowedByte, rune in Hall.
      rewrite Hall. reflexivity.
Qed.

(** X3: only the empty key sanitizes to the empty string. *)
Theorem keyToSnake_empty (s : string) : keyToSnake s = "" <-> s = "".
Proof.
  split; [|intros ->; reflexivity].
  intros H. apply SanitizerMore.runes_nil.
  apply (f_equal String.length) in H.
  rewrite SanitizerMore.length_keyToSnake in H. cbn in H.
  destruct (utf8.runes s); [reflexivity | discriminate].
Qed.

Lemma keyToSnake_fixed_points_witness :
  forallb allowedByte (list_ascii_of_string "jvm_memory:used_2") = true
  /\ keyToSnake "jvm_memory:used_2" = "jvm_memory:used_2".
Proof.
  split; [reflexivity|].
  apply (proj2 (keyToSnake_fixed_points "jvm_memory:used_2")). reflexivity.
Defined.

Lemma keyToSnake_empty_witness :
  keyToSnake "" = "" /\ "" = "".
Proof.
  split; [reflexivity|].
  apply (proj1 (keyToSnake_empty "")). reflexivity.
Defined.

(** ** Metric names *)

Module NameFacts.
Import Bytes BytesFacts utf8 utf8Facts SanitizerFacts prometheus.

Ltac runes_to_numbers :=
  change (rune "a") with 97 in *; change (rune "z") with 122 in *;
  change (rune "A") with 65 in *; change (rune "Z") with 90 in *;
  change (rune "0") with 48 in *; change (rune "9") with 57 in *;
  change (rune ":") with 58 in *; change (rune "_") with 95 in *.

(** After the first byte, a rune passes the test of a metric name when
    it is in the class that the sanitizer keeps. *)
Lemma isValidRune_pos i b : (0 < i)%nat -> isValidRune i b = allowedRune b.
Proof.
  intros Hi. unfold isValidRune, allowedRune. runes_to_numbers.
  destruct (Nat.ltb_spec 0 i); [|lia]. rewrite andb_true_r.
  destruct ((97 <=? b) && (b <=? 122)), ((65 <=? b) && (b <=? 90)),
    ((48 <=? b) && (b <=? 57)), (b =? 58), (b =? 95); reflexivity.
Qed.

Lemma isValidRune_allowed i b : isValidRune i b = true -> allowedRune b = true.
Proof.
  unfold isValidRune, allowedRune.
  destruct ((rune "a" <=? b) && (b <=? rune "z")),
    ((rune "A" <=? b) && (b <=? rune "Z")),
    ((rune "0" <=? b) && (b <=? rune "9")), (b =? rune ":"), (b =? rune "_");
    simpl; auto.
Qed.

Lemma isValidRune_nonascii i b : RuneSelf <= b -> isValidRune i b = false.
Proof.
  intros Hb. destruct (isValidRune i b) eqn:E; [|reflexivity].
  apply isValidRune_allowed, allowedRune_ascii in E. lia.
Qed.

Lemma bytes_append a b :
  list_ascii_of_string (a +:+ b)
  = list_ascii_of_string a ++ list_ascii_of_string b.
Proof. induction a as [|c a IH]; [reflexivity|]. simpl. rewrite IH. reflexivity. Qed.

(** The loop of [IsValidMetricName], past the first byte, accepts the
    strings that have only bytes of the class. *)
Lemma validFrom_bytes fuel i n :
  (0 < i)%nat -> (String.length n <= fuel)%nat ->
  validFrom fuel i n = forallb allowedByte (list_ascii_of_string n).
Proof.
  revert i n. induction fuel as [|fuel IH]; intros i n Hi Hle.
  - destruct n; [reflexivity | simpl in Hle; lia].
  - destruct n as [|c t]; [reflexivity|].
    cbn [validFrom list_ascii_of_string forallb].
    destruct (Z.lt_ge_cases (byteZ c) RuneSelf) as [Hc|Hc].
    + rewrite decode_ascii by exact Hc. cbn [drop].
      rewrite isValidRune_pos by exact Hi. unfold allowedByte at 1, rune.
      destruct (allowedRune (byteZ c)); [|reflexivity]. cbn [negb andb].
      apply IH; [lia | simpl in Hle; lia].
    + destruct (decode_nonascii c t Hc) as [_ Hr].
      destruct (DecodeRuneInString (String c t)) as [r w]. cbn [fst] in Hr.
      rewrite isValidRune_nonascii by exact Hr. cbn [negb].
      unfold allowedByte, rune.
      destruct (allowedRune (byteZ c)) eqn:E; [|reflexivity].
      apply allowedRune_ascii in E. lia.
Qed.

(** A metric name is valid when its first byte is a letter, an
    underscore or a colon and all its bytes are in the class. *)
Lemma IsValidMetricName_cons c t :
  IsValidMetricName (String c t)
  = isValidRune 0 (byteZ c) && forallb allowedByte (list_ascii_of_string t).
Proof.
  unfold IsValidMetricName. cbn [String.length Nat.eqb validFrom].
  destruct (Z.lt_ge_cases (byteZ c) RuneSelf) as [Hc|Hc].
  - rewrite decode_ascii by exact Hc. cbn [drop].
    destruct (isValidRune 0 (byteZ c)); [|reflexivity]. cbn [negb andb].
    apply validFrom_bytes; lia.
  - destruct (decode_nonascii c t Hc) as [_ Hr].
    destruct (DecodeRuneInString (String c t)) as [r w]. cbn [fst] in Hr.
    rewrite !isValidRune_nonascii by assumption. reflexivity.
Qed.

Lemma IsValidMetricName_allowed n :
  IsValidMetricName n = true ->
  forallb allowedByte (list_ascii_of_string n) = true.
Proof.
  destruct n as [|c t]; [discriminate|].
  rewrite IsValidMetricName_cons. cbn [list_ascii_of_string forallb].
  rewrite !andb_true_iff. intros [H1 H2]. split; [|exact H2].
  apply isValidRune_allowed in H1. exact H1.
Qed.

(** The sanitized key has only bytes of the class. *)
Lemma allowed_keyToSnake key :
  forallb allowedByte (list_ascii_of_string (keyToSnake key)) = true.
Proof.
  rewrite keyToSnake_runes, IdempotenceFacts.bytes_stringOfRunes, map_map.
  apply forallb_forall. intros c Hc. apply in_map_iff in Hc.
  destruct Hc as [r [<- _]]. apply IdempotenceFacts.allowedByte_sanitized.
Qed.

Lemma keyToSnake_nil key : keyToSnake key = "" -> key = "".
Proof.
  intros H. apply SanitizerMore.runes_nil.
  apply (f_equal String.length) in H.
  rewrite SanitizerMore.length_keyToSnake in H. cbn in H.
  destruct (utf8.runes key); [reflexivity | discriminate].
Qed.

(** A name put after a namespace: the result is valid when the
    namespace is empty or valid, for a name that is valid itself. *)
Lemma valid_BuildFQName ns name :
  IsValidMetricName name = true ->
  IsValidMetricName (BuildFQName ns "" name) = validNamespace ns.
Proof.
  intros Hname. unfold BuildFQName, validNamespace, join2.
  destruct name as [|c t]; [discriminate|]. cbn [String.eqb].
  destruct ns as [|cn tn]; cbn [String.eqb negb andb orb]; [exact Hname|].
  change (String cn tn +:+ "_" +:+ String c t)
    with (String cn (tn +:+ "_" +:+ String c t)).
  rewrite !IsValidMetricName_cons. f_equal.
  rewrite !bytes_append, !forallb_app.
  apply IsValidMetricName_allowed in Hname. rewrite Hname.
  cbn. rewrite andb_true_r. reflexivity.
Qed.

(** After a namespace that is not empty, a name needs only bytes of
    the class. *)
Lemma valid_BuildFQName_after ns name :
  ns <> "" -> name <> "" ->
  forallb allowedByte (list_ascii_of_string name) = true ->
  IsValidMetricName (BuildFQName ns "" name) = IsValidMetricName ns.
Proof.
  intros Hns Hname Hall. unfold BuildFQName, join2.
  destruct name as [|c t]; [contradiction|]. cbn [String.eqb].
  destruct ns as [|cn tn]; [contradiction|]. cbn [String.eqb negb andb].
  change (String cn tn +:+ "_" +:+ String c t)
    with (String cn (tn +:+ "_" +:+ String c t)).
  rewrite !IsValidMetricName_cons. f_equal.
  rewrite !bytes_append, !forallb_app, Hall.
  cbn. rewrite andb_true_r. reflexivity.
Qed.

Section Exporter.
Variables (ns : string) (insecure : bool) (uri user pw : string).
Let e := NewExporter ns insecure uri user pw.

Lemma valid_up : IsValidMetricName (fqName (up e)) = validNamespace ns.
Proof. apply valid_BuildFQName. reflexivity. Qed.

Lemma valid_duration : IsValidMetricName (fqName (duration e)) = validNamespace ns.
Proof. apply valid_BuildFQName. reflexivity. Qed.

Lemma validMeta_NewExporter : validMeta e = validNamespace ns.
Proof.
  unfold validMeta. rewrite valid_up, valid_duration. apply andb_diag.
Qed.

(** The empty key has the empty name, which is not valid. *)
Lemma validKey_empty : validKey e "" = false.
Proof. reflexivity. Qed.

(** With a namespace, every key but the empty one has a valid name when
    the namespace is valid. *)
Lemma validKey_after_namespace key :
  ns <> "" -> key <> "" -> validKey e key = IsValidMetricName ns.
Proof.
  intros Hns Hkey. unfold validKey, payloadDesc, NewDesc. cbn [fqName namespace e NewExporter].
  apply valid_BuildFQName_after; [exact Hns | | apply allowed_keyToSnake].
  intros H. apply Hkey, keyToSnake_nil, H.
Qed.

End Exporter.

End NameFacts.

(** ** The collection cycle *)

Module CollectFacts.
Import prometheus.

Lemma append_inv_head (s a b : string) : s +:+ a = s +:+ b -> a = b.
Proof.
  induction s as [|c s IH]; simpl; intros H; [exact H|].
  injection H as H. auto.
Qed.

(** For a fixed namespace, the fully-qualified name determines the
    name it was built from. *)
Lemma BuildFQName_inj ns a b :
  BuildFQName ns "" a = BuildFQName ns "" b -> a = b.
Proof.
  unfold BuildFQName, join2.
  destruct a as [|ca a], b as [|cb b], ns as [|cn ns]; simpl;
    try congruence; try discriminate.
  intros H. now do 2 apply append_inv_head in H.
Qed.

(** [MustNewConstMetric] gives the metric of its arguments, or panics,
    by the name of the descriptor. *)
Lemma MustNewConstMetric_inr d t v m :
  MustNewConstMetric d t v = inr m ->
  m = {| desc := d; valType := t; val := v |}
  /\ IsValidMetricName (fqName d) = true.
Proof.
  unfold MustNewConstMetric, NewConstMetric, err.
  destruct (IsValidMetricName (fqName d)); cbn [negb]; [|discriminate].
  intros H. injection H as <-. auto.
Qed.

Lemma MustNewConstMetric_inl d t v p :
  MustNewConstMetric d t v = inl p ->
  p = InvalidMetricName (fqName d) /\ IsValidMetricName (fqName d) = false.
Proof.
  unfold MustNewConstMetric, NewConstMetric, err.
  destruct (IsValidMetricName (fqName d)); cbn [negb]; [discriminate|].
  intros H. injection H as <-. auto.
Qed.

Lemma MustNewConstMetric_valid d t v :
  IsValidMetricName (fqName d) = true ->
  MustNewConstMetric d t v = inr {| desc := d; valType := t; val := v |}.
Proof.
  intros H. unfold MustNewConstMetric, NewConstMetric, err. rewrite H.
  reflexivity.
Qed.

Lemma MustNewConstMetric_invalid d t v :
  IsValidMetricName (fqName d) = false ->
  MustNewConstMetric d t v = inl (InvalidMetricName (fqName d)).
Proof.
  intros H. unfold MustNewConstMetric, NewConstMetric, err. rewrite H.
  reflexivity.
Qed.

Lemma payloadMetric_desc e entry m :
  payloadMetric e entry = inr m -> desc m = payloadDesc e (fst entry).
Proof.
  intros H. apply MustNewConstMetric_inr in H. destruct H as [-> _].
  reflexivity.
Qed.

Section Kinds.
Variables (ns : string) (insecure : bool) (uri user pw : string).
Let e := NewExporter ns insecure uri user pw.

Lemma up_ne_duration : up e <> duration e.
Proof. unfold e, NewExporter, NewDesc; simpl. congruence. Qed.

(** No payload entry has the descriptor of a meta-measurement: its help
    text is the raw key and its name comes from the sanitized key. *)
Lemma payload_ne_up key : payloadDesc e key <> up e.
Proof.
  unfold e, payloadDesc, NewExporter, NewDesc; simpl.
  intros H. injection H as Hn Hk. subst key.
  apply BuildFQName_inj in Hn. vm_compute in Hn. discriminate.
Qed.

Lemma payload_ne_duration key : payloadDesc e key <> duration e.
Proof.
  unfold e, payloadDesc, NewExporter, NewDesc; simpl.
  intros H. injection H as Hn Hk. subst key.
  apply BuildFQName_inj in Hn. vm_compute in Hn. discriminate.
Qed.

Lemma isUp_up v m : upMetric e v = inr m -> isUp e m = true.
Proof.
  intros H. apply MustNewConstMetric_inr in H. destruct H as [-> _].
  unfold isUp. apply bool_decide_eq_true. reflexivity.
Qed.

Lemma isUp_duration secs m : durationMetric e secs = inr m -> isUp e m = false.
Proof.
  intros H. apply MustNewConstMetric_inr in H. destruct H as [-> _].
  unfold isUp. apply bool_decide_eq_false. simpl.
  intros H. symmetry in H. revert H. apply up_ne_duration.
Qed.

Lemma isUp_payload entry m : payloadMetric e entry = inr m -> isUp e m = false.
Proof.
  intros H. apply payloadMetric_desc in H.
  unfold isUp. apply bool_decide_eq_false. rewrite H. apply payload_ne_up.
Qed.

Lemma isDuration_duration secs m :
  durationMetric e secs = inr m -> isDuration e m = true.
Proof.
  intros H. apply MustNewConstMetric_inr in H. destruct H as [-> _].
  unfold isDuration. apply bool_decide_eq_true. reflexivity.
Qed.

Lemma isDuration_up v m : upMetric e v = inr m -> isDuration e m = false.
Proof.
  intros H. apply MustNewConstMetric_inr in H. destruct H as [-> _].
  unfold isDuration. apply bool_decide_eq_false. apply up_ne_duration.
Qed.

Lemma isDuration_payload entry m :
  payloadMetric e entry = inr m -> isDuration e m = false.
Proof.
  intros H. apply payloadMetric_desc in H.
  unfold isDuration. apply bool_decide_eq_false. rewrite H.
  apply payload_ne_duration.
Qed.

Lemma isPayload_payload entry m :
  payloadMetric e entry = inr m -> isPayload e m = true.
Proof.
  intros H. unfold isPayload.
  rewrite (isUp_payload entry m H), (isDuration_payload entry m H). reflexivity.
Qed.

Lemma isPayload_up v m : upMetric e v = inr m -> isPayload e m = false.
Proof. intros H. unfold isPayload. rewrite (isUp_up v m H). reflexivity. Qed.

Lemma isPayload_duration secs m :
  durationMetric e secs = inr m -> isPayload e m = false.
Proof.
  intros H. unfold isPayload. rewrite (isDuration_duration secs m H).
  apply andb_false_r.
Qed.

(** With a valid namespace the two meta-measurements can be built, and
    with another one neither can. *)
Lemma durationMetric_valid secs :
  validNamespace ns = true ->
  durationMetric e secs
  = inr {| desc := duration e; valType := GaugeValue; val := secs |}.
Proof.
  intros H. apply MustNewConstMetric_valid.
  unfold e. rewrite NameFacts.valid_duration. exact H.
Qed.

Lemma upMetric_valid v :
  validNamespace ns = true ->
  upMetric e v
  = inr {| desc := up e; valType := GaugeValue; val := float64.ofZ v |}.
Proof.
  intros H. apply MustNewConstMetric_valid.
  unfold e. rewrite NameFacts.valid_up. exact H.
Qed.

Lemma durationMetric_invalid secs :
  validNamespace ns = false ->
  durationMetric e secs = inl (InvalidMetricName (fqName (duration e))).
Proof.
  intros H. apply MustNewConstMetric_invalid.
  unfold e. rewrite NameFacts.valid_duration. exact H.
Qed.

End Kinds.

(** The loop over the payload. *)
Lemma forRange_payload e entries body :
  (forall key value,
     body key value
     = (event (DebugKey (keyToSnake key) key value);;
        m ← must (payloadMetric e (key, value));
        event (Send m))) ->
  forRange entries body = (payloadEvents e entries, payloadResult e entries).
Proof.
  intros Hbody. unfold payloadResult.
  induction entries as [|[key value] rest IH]; [reflexivity|].
  cbn [forRange payloadEvents payloadPanic]. rewrite IH, Hbody.
  destruct (payloadMetric e (key, value)) as [p|m]; [reflexivity|].
  cbn. destruct (payloadPanic e rest); reflexivity.
Qed.

Lemma sent_payloadEvents_cons e entry rest :
  sent (payloadEvents e (entry :: rest))
  = match payloadMetric e entry with
    | inl _ => []
    | inr m => m :: sent (payloadEvents e rest)
    end.
Proof.
  cbn [payloadEvents]. destruct (payloadMetric e entry); reflexivity.
Qed.

(** What the loop sends: the metrics of the entries it gets through. *)
Lemma sent_payloadEvents e entries :
  built (sent (payloadEvents e entries)) = map (payloadMetric e) (served e entries).
Proof.
  induction entries as [|entry rest IH]; [reflexivity|].
  rewrite sent_payloadEvents_cons. cbn [served].
  destruct (payloadMetric e entry) as [p|m] eqn:E; [reflexivity|].
  cbn [map built]. rewrite E. f_equal. exact IH.
Qed.

Lemma descs_payloadEvents e entries :
  map desc (sent (payloadEvents e entries))
  = map (fun entry => payloadDesc e (fst entry)) (served e entries).
Proof.
  induction entries as [|entry rest IH]; [reflexivity|].
  rewrite sent_payloadEvents_cons. cbn [served].
  destruct (payloadMetric e entry) as [p|m] eqn:E; [reflexivity|].
  cbn [map]. rewrite (payloadMetric_desc e entry m E). f_equal. exact IH.
Qed.

Lemma served_all e entries :
  payloadPanic e entries = None -> served e entries = entries.
Proof.
  induction entries as [|entry rest IH]; [reflexivity|].
  cbn [payloadPanic served].
  destruct (payloadMetric e entry); [discriminate|].
  intros H. f_equal. apply IH, H.
Qed.

Lemma served_sublist e entries : served e entries `sublist_of` entries.
Proof.
  induction entries as [|entry rest IH]; [constructor|].
  cbn [served]. destruct (payloadMetric e entry).
  - apply sublist_nil_l.
  - apply sublist_skip, IH.
Qed.

(** The loop ends without a panic when every key has a valid name. *)
Lemma payloadPanic_None e entries :
  payloadPanic e entries = None
  <-> Forall (fun entry => validKey e (fst entry) = true) entries.
Proof.
  induction entries as [|entry rest IH]; [split; [constructor | reflexivity]|].
  cbn [payloadPanic]. rewrite Forall_cons, <- IH. unfold validKey.
  destruct (payloadMetric e entry) as [p|m] eqn:E.
  - apply MustNewConstMetric_inl in E. destruct E as [_ E].
    rewrite E. split; [discriminate | intros [? _]; discriminate].
  - apply MustNewConstMetric_inr in E. destruct E as [_ E].
    rewrite E. tauto.
Qed.

Section Shapes.
Variables (w : World) (e : Exporter).

(** The whole of a cycle, by the way it goes. *)
Lemma collect_cases :
  collect w e
  = match parseURL w (URI e) with
    | Some msg => ([], Failed (UrlError msg))
    | None =>
      match durationMetric e (elapsed w) with
      | inl p => ([Do (request e)], Panicked p)
      | inr d =>
        match roundTrip w (client e) (request e) with
        | inl err =>
          match upMetric e 0 with
          | inl p => ([Do (request e); Send d], Panicked p)
          | inr u => ([Do (request e); Send d; Send u], Failed (ScrapeError err))
          end
        | inr resp =>
          match upMetric e 1 with
          | inl p => ([Do (request e); Send d], Panicked p)
          | inr u =>
            match http.Body resp with
            | inl msg =>
              ([Do (request e); Send d; Send u; ReadAll; Close],
               Failed (ReadError msg))
            | inr body =>
              if http.StatusCode resp =? 200 then
                match json.Unmarshal body with
                | None =>
                  ([Do (request e); Send d; Send u; ReadAll; Close],
                   Failed UnmarshalError)
                | Some data =>
                  ([Do (request e); Send d; Send u; ReadAll; DebugRows (size data)]
                     ++ payloadEvents e (rangeOrder w data) ++ [Close],
                   payloadResult e (rangeOrder w data))
                end
              else
                ([Do (request e); Send d; Send u; ReadAll; Close],
                 Failed (StatusError (http.StatusCode resp)))
            end
          end
        end
      end
    end.
Proof.
  unfold collect, NewRequest, durationMetric, upMetric.
  generalize (float64.ofZ 0) (float64.ofZ 1). intros zero one.
  destruct (parseURL w (URI e)) as [msg|]; [reflexivity|].
  cbn. fold (request e).
  destruct (MustNewConstMetric (duration e) GaugeValue (elapsed w)) as [p|d];
    [reflexivity|].
  cbn. destruct (roundTrip w (client e) (request e)) as [err|resp].
  { destruct (MustNewConstMetric (up e) GaugeValue zero); reflexivity. }
  destruct (MustNewConstMetric (up e) GaugeValue one) as [p|u];
    [reflexivity|].
  cbn. destruct (http.Body resp) as [msg|body]; [reflexivity|].
  destruct (http.StatusCode resp =? 200); [|reflexivity].
  destruct (json.Unmarshal body) as [data|]; [|reflexivity].
  cbn. rewrite (forRange_payload e) by reflexivity.
  destruct (payloadResult e (rangeOrder w data)); reflexivity.
Qed.

Lemma collect_bad_uri msg :
  parseURL w (URI e) = Some msg ->
  collect w e = ([], Failed (UrlError msg)).
Proof. intros H. rewrite collect_cases, H. reflexivity. Qed.

End Shapes.

Lemma sent_app tr1 tr2 : sent (tr1 ++ tr2) = sent tr1 ++ sent tr2.
Proof. unfold sent. apply omap_app. Qed.

(** What a cycle sends, by the way it goes. *)
Lemma emitted_cases w e :
  emitted w e
  = match parseURL w (URI e) with
    | Some _ => []
    | None =>
      match durationMetric e (elapsed w) with
      | inl _ => []
      | inr d =>
        d :: match roundTrip w (client e) (request e) with
             | inl _ =>
               match upMetric e 0 with
               | inl _ => []
               | inr u => [u]
               end
             | inr resp =>
               match upMetric e 1 with
               | inl _ => []
               | inr u =>
                 u :: match http.Body resp with
                      | inl _ => []
                      | inr body =>
                        if http.StatusCode resp =? 200 then
                          match json.Unmarshal body with
                          | None => []
                          | Some data => sent (payloadEvents e (rangeOrder w data))
                          end
                        else []
                      end
               end
             end
      end
    end.
Proof.
  unfold emitted. rewrite collect_cases.
  destruct (parseURL w (URI e)); [reflexivity|].
  destruct (durationMetric e (elapsed w)); [reflexivity|].
  destruct (roundTrip w (client e) (request e)) as [err|resp].
  { destruct (upMetric e 0); reflexivity. }
  destruct (upMetric e 1); [reflexivity|].
  destruct (http.Body resp); [reflexivity|].
  destruct (http.StatusCode resp =? 200); [|reflexivity].
  destruct (json.Unmarshal s); [|reflexivity].
  cbn [fst]. rewrite !sent_app. cbn. rewrite app_nil_r. reflexivity.
Qed.

(** How a cycle ends, by the way it goes. *)
Lemma result_cases w e :
  snd (collect w e)
  = match parseURL w (URI e) with
    | Some msg => Failed (UrlError msg)
    | None =>
      match durationMetric e (elapsed w) with
      | inl p => Panicked p
      | inr _ =>
        match roundTrip w (client e) (request e) with
        | inl err =>
          match upMetric e 0 with
          | inl p => Panicked p
          | inr _ => Failed (ScrapeError err)
          end
        | inr resp =>
          match upMetric e 1 with
          | inl p => Panicked p
          | inr _ =>
            match http.Body resp with
            | inl msg => Failed (ReadError msg)
            | inr body =>
              if http.StatusCode resp =? 200 then
                match json.Unmarshal body with
                | None => Failed UnmarshalError
                | Some data => payloadResult e (rangeOrder w data)
                end
              else Failed (StatusError (http.StatusCode resp))
            end
          end
        end
      end
    end.
Proof.
  rewrite collect_cases.
  destruct (parseURL w (URI e)); [reflexivity|].
  destruct (durationMetric e (elapsed w)); [reflexivity|].
  destruct (roundTrip w (client e) (request e)) as [err|resp].
  { destruct (upMetric e 0); reflexivity. }
  destruct (upMetric e 1); [reflexivity|].
  destruct (http.Body resp); [reflexivity|].
  destruct (http.StatusCode resp =? 200); [|reflexivity].
  destruct (json.Unmarshal s); reflexivity.
Qed.

Lemma received_eq w e :
  received w e
  = match parseURL w (URI e) with
    | Some _ => None
    | None => match roundTrip w (client e) (request e) with
              | inl _ => None
              | inr resp => Some resp
              end
    end.
Proof.
  unfold received, NewRequest. destruct (parseURL w (URI e)); reflexivity.
Qed.

Lemma transportFailed_eq w e :
  transportFailed w e
  = match parseURL w (URI e) with
    | Some _ => false
    | None => match roundTrip w (client e) (request e) with
              | inl _ => true
              | inr resp => false
              end
    end.
Proof.
  unfold transportFailed, NewRequest. destruct (parseURL w (URI e)); reflexivity.
Qed.

Section Filters.
Variables (ns : string) (insecure : bool) (uri user pw : string).
Let e := NewExporter ns insecure uri user pw.

Lemma filter_isUp_payload entries :
  List.filter (isUp e) (sent (payloadEvents e entries)) = [].
Proof.
  induction entries as [|entry rest IH]; [reflexivity|].
  rewrite sent_payloadEvents_cons.
  destruct (payloadMetric e entry) as [p|m] eqn:E; [reflexivity|].
  cbn [List.filter]. unfold e in *. rewrite (isUp_payload _ _ _ _ _ _ _ E).
  exact IH.
Qed.

Lemma filter_isDuration_payload entries :
  List.filter (isDuration e) (sent (payloadEvents e entries)) = [].
Proof.
  induction entries as [|entry rest IH]; [reflexivity|].
  rewrite sent_payloadEvents_cons.
  destruct (payloadMetric e entry) as [p|m] eqn:E; [reflexivity|].
  cbn [List.filter]. unfold e in *. rewrite (isDuration_payload _ _ _ _ _ _ _ E).
  exact IH.
Qed.

Lemma filter_isPayload_payload entries :
  List.filter (isPayload e) (sent (payloadEvents e entries))
  = sent (payloadEvents e entries).
Proof.
  induction entries as [|entry rest IH]; [reflexivity|].
  rewrite sent_payloadEvents_cons.
  destruct (payloadMetric e entry) as [p|m] eqn:E; [reflexivity|].
  cbn [List.filter]. unfold e in *. rewrite (isPayload_payload _ _ _ _ _ _ _ E).
  f_equal. exact IH.
Qed.

Lemma forallb_isPayload_payload entries :
  forallb (isPayload e) (sent (payloadEvents e entries)) = true.
Proof.
  induction entries as [|entry rest IH]; [reflexivity|].
  rewrite sent_payloadEvents_cons.
  destruct (payloadMetric e entry) as [p|m] eqn:E; [reflexivity|].
  cbn [forallb]. unfold e in *. rewrite (isPayload_payload _ _ _ _ _ _ _ E).
  exact IH.
Qed.

(** With a valid namespace, the meta-measurements of a cycle are built,
    and each is of its kind. *)
Lemma meta_built secs :
  validNamespace ns = true ->
  exists d u0 u1 : Metric,
    durationMetric e secs = inr d
    /\ upMetric e 0 = inr u0
    /\ upMetric e 1 = inr u1
    /\ (isDuration e d = true /\ isUp e d = false /\ isPayload e d = false)
    /\ (isDuration e u0 = false /\ isUp e u0 = true /\ isPayload e u0 = false)
    /\ (isDuration e u1 = false /\ isUp e u1 = true /\ isPayload e u1 = false)
    /\ val u0 = float64.ofZ 0
    /\ val u1 = float64.ofZ 1.
Proof.
  intros Hns.
  pose proof (durationMetric_valid ns insecure uri user pw secs Hns) as Hd.
  pose proof (upMetric_valid ns insecure uri user pw 0 Hns) as H0.
  pose proof (upMetric_valid ns insecure uri user pw 1 Hns) as H1.
  fold e in Hd, H0, H1.
  eexists _, _, _. split; [exact Hd|]. split; [exact H0|]. split; [exact H1|].
  unfold e in *.
  repeat split;
    first [ eapply isDuration_duration; eassumption
          | eapply isUp_duration; eassumption
          | eapply isPayload_duration; eassumption
          | eapply isDuration_up; eassumption
          | eapply isUp_up; eassumption
          | eapply isPayload_up; eassumption ].
Qed.

End Filters.

End CollectFacts.

Import prometheus.

(** A tactic for the proofs below: the cycle of an exporter with a
    valid namespace, written by the way it goes, with its
    meta-measurements [d], [u0] and [u1]. *)
Ltac valid_cycle ns insecure uri user pw w Hns :=
  let d := fresh "d" in
  let u0 := fresh "u0" in
  let u1 := fresh "u1" in
  destruct (CollectFacts.meta_built ns insecure uri user pw (elapsed w) Hns)
    as (d & u0 & u1 & ?Hd & ?Hu0 & ?Hu1
          & [?Hdd [?Hdu ?Hdp]] & [?H0d [?H0u ?H0p]] & [?H1d [?H1u ?H1p]]
          & ?Hv0 & ?Hv1);
  unfold returned, panicked;
  rewrite ?CollectFacts.received_eq, ?CollectFacts.transportFailed_eq,
          ?CollectFacts.emitted_cases, ?CollectFacts.result_cases;
  cbn [URI NewExporter] in *.

(** C1, as the code has it: in every cycle in which the request could be
    built, of an exporter whose namespace gives valid metric names,
    exactly one [up] measurement, of value 0 or 1, and exactly one
    [response_duration] measurement are sent, whether the cycle then
    fails or not; payload measurements are sent only when a response was
    received, its status was 200, its body was read and parsed as a flat
    numeric mapping. *)
Theorem cycle_meta_measurements
    (ns : string) (insecure : bool) (uri user pw : string) (w : World) :
  parseURL w uri = None ->
  validNamespace ns = true ->
  let e := NewExporter ns insecure uri user pw in
  (built (List.filter (isUp e) (emitted w e)) = [upMetric e 0]
   \/ built (List.filter (isUp e) (emitted w e)) = [upMetric e 1])
  /\ built (List.filter (isDuration e) (emitted w e))
     = [durationMetric e (elapsed w)]
  /\ (List.filter (isPayload e) (emitted w e) <> [] ->
      exists resp body data,
        received w e = Some resp
        /\ http.StatusCode resp = 200
        /\ http.Body resp = inr body
        /\ json.Unmarshal body = Some data).
Proof.
  intros Hurl Hns e. subst e.
  valid_cycle ns insecure uri user pw w Hns.
  set (e := NewExporter ns insecure uri user pw) in *.
  rewrite Hurl, Hd, Hu0, Hu1.
  destruct (roundTrip w (client e) (request e)) as [err|resp].
  { cbn [List.filter]. rewrite Hdd, Hdu, Hdp, H0d, H0u, H0p.
    repeat split; auto. intros []; reflexivity. }
  destruct (http.Body resp) as [msg|body] eqn:Hbody.
  { cbn [List.filter]. rewrite Hdd, Hdu, Hdp, H1d, H1u, H1p.
    repeat split; auto. intros []; reflexivity. }
  destruct (Z.eqb_spec (http.StatusCode resp) 200) as [Hcode|Hcode].
  - destruct (json.Unmarshal body) as [data|] eqn:Hjson.
    + cbn [List.filter]. rewrite Hdd, Hdu, Hdp, H1d, H1u, H1p.
      unfold e. rewrite CollectFacts.filter_isUp_payload,
        CollectFacts.filter_isDuration_payload.
      repeat split; auto. intros _. exists resp, body, data. auto.
    + cbn [List.filter]. rewrite Hdd, Hdu, Hdp, H1d, H1u, H1p.
      repeat split; auto. intros []; reflexivity.
  - cbn [List.filter]. rewrite Hdd, Hdu, Hdp, H1d, H1u, H1p.
    repeat split; auto. intros []; reflexivity.
Qed.

(** C1 as it is written fails.  With a URI that does not parse the cycle
    sends nothing, so not exactly one [up] measurement.  With a
    namespace that is not the start of a metric name the request is
    made, the cycle panics on the first measurement and sends nothing
    either. *)
Lemma cycle_meta_measurements_counterexample :
  (emitted (Worlds.answers 200 (inr "{}") Worlds.quarter) Worlds.misconfigured = []
   /\ length (List.filter (isUp Worlds.misconfigured)
                (emitted (Worlds.answers 200 (inr "{}") Worlds.quarter)
                         Worlds.misconfigured)) <> 1%nat
   /\ length (List.filter (isDuration Worlds.misconfigured)
                (emitted (Worlds.answers 200 (inr "{}") Worlds.quarter)
                         Worlds.misconfigured)) <> 1%nat)
  /\ (parseURL (Worlds.answers 200 (inr "{}") Worlds.quarter) (URI Worlds.myApp)
      = None
      /\ fst (collect (Worlds.answers 200 (inr "{}") Worlds.quarter) Worlds.myApp)
         = [Do (request Worlds.myApp)]
      /\ panicked (Worlds.answers 200 (inr "{}") Worlds.quarter) Worlds.myApp
         = Some (InvalidMetricName "my-app_response_duration")
      /\ length (List.filter (isUp Worlds.myApp)
                   (emitted (Worlds.answers 200 (inr "{}") Worlds.quarter)
                            Worlds.myApp)) <> 1%nat
      /\ length (List.filter (isDuration Worlds.myApp)
                   (emitted (Worlds.answers 200 (inr "{}") Worlds.quarter)
                            Worlds.myApp)) <> 1%nat).
Proof. repeat split; vm_compute; discriminate. Qed.

Lemma cycle_meta_measurements_witness :
  parseURL (Worlds.unreachable "connection refused" Worlds.quarter)
           "http://localhost:8080/metrics" = None
  /\ validNamespace "spring" = true
  /\ built (List.filter (isDuration Worlds.spring)
              (emitted (Worlds.unreachable "connection refused" Worlds.quarter)
                       Worlds.spring))
     = [durationMetric Worlds.spring Worlds.quarter].
Proof.
  split; [reflexivity|]. split; [reflexivity|].
  apply (cycle_meta_measurements "spring" false "http://localhost:8080/metrics"
           "" "" (Worlds.unreachable "connection refused" Worlds.quarter));
    reflexivity.
Defined.

Module UpFacts.

Lemma zero_ne_one : float64.ofZ 0 <> float64.ofZ 1.
Proof. vm_compute. discriminate. Qed.

(** The [up] measurements among what a cycle sends, whatever the
    exporter: none is a payload measurement or the duration. *)
Lemma up_sent ns insecure uri user pw w m :
  let e := NewExporter ns insecure uri user pw in
  In m (emitted w e) -> isUp e m = true ->
  parseURL w uri = None
  /\ match roundTrip w (client e) (request e) with
     | inl _ => upMetric e 0 = inr m
     | inr _ => upMetric e 1 = inr m
     end.
Proof.
  intros e. rewrite CollectFacts.emitted_cases. cbn [URI NewExporter e].
  fold e.
  destruct (parseURL w uri); [intros []|].
  destruct (durationMetric e (elapsed w)) as [p|d] eqn:Hd; [intros []|].
  assert (Hdu : isUp e d = false)
    by (eapply CollectFacts.isUp_duration; exact Hd).
  destruct (roundTrip w (client e) (request e)) as [err|resp].
  { destruct (upMetric e 0) as [p|u].
    - intros [<-|[]] Hm. congruence.
    - intros [<-|[<-|[]]] Hm; [congruence | auto]. }
  destruct (upMetric e 1) as [p|u].
  { intros [<-|[]] Hm. congruence. }
  intros [<-|[<-|Hin]] Hm; [congruence | auto |].
  exfalso.
  assert (Hnone : forall l, In m l -> List.filter (isUp e) l = [] -> False).
  { intros l Hl Hf. assert (Hmf : In m (List.filter (isUp e) l))
      by (apply filter_In; auto). rewrite Hf in Hmf. destruct Hmf. }
  destruct (http.Body resp); [destruct Hin|].
  destruct (http.StatusCode resp =? 200); [|destruct Hin].
  destruct (json.Unmarshal s); [|destruct Hin].
  apply (Hnone _ Hin). apply CollectFacts.filter_isUp_payload.
Qed.

End UpFacts.

(** C2: in every cycle, an [up] measurement that is sent has value 1
    whenever a response was received, whatever its status code; it has
    value 0 only when the request failed at the transport level, that
    is when [client.Do] returned an error, and it has value 0 whenever
    it did.  With a namespace that gives valid metric names, this
    measurement is sent, once, in every cycle with a response or a
    transport failure. *)
Theorem up_reflects_transport
    (ns : string) (insecure : bool) (uri user pw : string) (w : World) :
  let e := NewExporter ns insecure uri user pw in
  (forall m, In m (emitted w e) -> isUp e m = true ->
     (forall resp, received w e = Some resp -> val m = float64.ofZ 1)
     /\ (val m = float64.ofZ 0 -> transportFailed w e = true)
     /\ (transportFailed w e = true -> val m = float64.ofZ 0))
  /\ (validNamespace ns = true ->
      (forall resp, received w e = Some resp ->
         built (List.filter (isUp e) (emitted w e)) = [upMetric e 1])
      /\ (transportFailed w e = true ->
            built (List.filter (isUp e) (emitted w e)) = [upMetric e 0])).
Proof.
  intros e. split.
  - intros m Hin Hm.
    destruct (UpFacts.up_sent ns insecure uri user pw w m Hin Hm) as [Hurl Hup].
    fold e in Hup.
    rewrite CollectFacts.received_eq, CollectFacts.transportFailed_eq.
    cbn [URI NewExporter e]. fold e. rewrite Hurl.
    destruct (roundTrip w (client e) (request e)) as [err|resp];
      apply CollectFacts.MustNewConstMetric_inr in Hup;
      destruct Hup as [-> _]; cbn [val].
    + repeat split; auto. discriminate.
    + repeat split; auto; [|discriminate].
      intros H. destruct UpFacts.zero_ne_one. symmetry. exact H.
  - intros Hns. subst e.
    valid_cycle ns insecure uri user pw w Hns.
    set (e := NewExporter ns insecure uri user pw) in *.
    rewrite Hd, Hu0, Hu1.
    destruct (parseURL w uri) as [msg|]; [split; discriminate|].
    destruct (roundTrip w (client e) (request e)) as [err|resp].
    { cbn [List.filter]. rewrite Hdu, H0u. split; [discriminate | reflexivity]. }
    split; [|discriminate]. intros _ _.
    destruct (http.Body resp) as [msg|body];
      [cbn [List.filter]; rewrite Hdu, H1u; reflexivity|].
    destruct (http.StatusCode resp =? 200);
      [|cbn [List.filter]; rewrite Hdu, H1u; reflexivity].
    destruct (json.Unmarshal body) as [data|];
      [|cbn [List.filter]; rewrite Hdu, H1u; reflexivity].
    cbn [List.filter]. rewrite Hdu, H1u.
    unfold e. rewrite CollectFacts.filter_isUp_payload. reflexivity.
Qed.

Lemma up_reflects_transport_witness :
  validNamespace "spring" = true
  /\ received (Worlds.answers 503 (inr "Service Unavailable") Worlds.quarter)
              Worlds.spring
     = Some {| http.StatusCode := 503; http.Body := inr "Service Unavailable" |}
  /\ built (List.filter (isUp Worlds.spring)
              (emitted (Worlds.answers 503 (inr "Service Unavailable")
                                       Worlds.quarter)
                       Worlds.spring))
     = [upMetric Worlds.spring 1].
Proof.
  split; [reflexivity|]. split; [reflexivity|].
  apply (proj1 (proj2 (up_reflects_transport "spring" false
                         "http://localhost:8080/metrics" "" ""
                         (Worlds.answers 503 (inr "Service Unavailable")
                                         Worlds.quarter))
                      eq_refl)
           {| http.StatusCode := 503; http.Body := inr "Service Unavailable" |}).
  reflexivity.
Defined.

(** C5, as the code has it: after a response is received by an exporter
    whose namespace gives valid metric names, the body is read before
    the status is checked.  If the read fails, the cycle returns the
    read error, whatever the status, and sends no payload measurement;
    if the body was read and the status is not 200, the cycle returns
    the status-mismatch error and sends no payload measurement.  So a
    response that is not 200 and whose body cannot be read gives the
    read error. *)
Theorem body_read_before_status
    (ns : string) (insecure : bool) (uri user pw : string) (w : World)
    (resp : http.Response) :
  let e := NewExporter ns insecure uri user pw in
  validNamespace ns = true ->
  received w e = Some resp ->
  (forall msg, http.Body resp = inl msg ->
     returned w e = Some (ReadError msg)
     /\ List.filter (isPayload e) (emitted w e) = [])
  /\ (forall body, http.Body resp = inr body -> http.StatusCode resp <> 200 ->
        returned w e = Some (StatusError (http.StatusCode resp))
        /\ List.filter (isPayload e) (emitted w e) = []).
Proof.
  intros e Hns. subst e.
  valid_cycle ns insecure uri user pw w Hns.
  set (e := NewExporter ns insecure uri user pw) in *.
  rewrite Hd, Hu1.
  destruct (parseURL w uri) as [msg|]; [discriminate|].
  destruct (roundTrip w (client e) (request e)) as [err|resp']; [discriminate|].
  intros Hr. injection Hr as ->.
  split.
  - intros msg Hb. rewrite Hb.
    cbn [List.filter]. rewrite Hdp, H1p. auto.
  - intros body Hb Hcode. rewrite Hb.
    destruct (Z.eqb_spec (http.StatusCode resp) 200); [contradiction|].
    cbn [List.filter]. rewrite Hdp, H1p. auto.
Qed.

(** C5 as it is written fails: the status is 500 and the body cannot be
    read; the cycle returns the read error, not the status-mismatch
    error.  And with a namespace that is not the start of a metric name,
    a response of status 500 gives no error at all: the cycle panics
    before it reads the body. *)
Lemma body_read_before_status_counterexample :
  (returned (Worlds.answers 500 (inl "unexpected EOF") Worlds.quarter) Worlds.spring
   = Some (ReadError "unexpected EOF")
   /\ returned (Worlds.answers 500 (inl "unexpected EOF") Worlds.quarter)
               Worlds.spring
      <> Some (StatusError 500))
  /\ (received (Worlds.answers 500 (inr "") Worlds.quarter) Worlds.myApp
      = Some {| http.StatusCode := 500; http.Body := inr "" |}
      /\ returned (Worlds.answers 500 (inr "") Worlds.quarter) Worlds.myApp
         <> Some (StatusError 500)
      /\ panicked (Worlds.answers 500 (inr "") Worlds.quarter) Worlds.myApp
         = Some (InvalidMetricName "my-app_response_duration")
      /\ ~ In ReadAll
              (fst (collect (Worlds.answers 500 (inr "") Worlds.quarter)
                            Worlds.myApp))).
Proof.
  repeat split; try reflexivity; vm_compute; try discriminate.
  intros [H|[]]. discriminate.
Qed.

Lemma body_read_before_status_witness :
  validNamespace "spring" = true
  /\ received (Worlds.answers 500 (inl "unexpected EOF") Worlds.quarter)
              Worlds.spring
     = Some {| http.StatusCode := 500; http.Body := inl "unexpected EOF" |}
  /\ http.Body {| http.StatusCode := 500; http.Body := inl "unexpected EOF" |}
     = inl "unexpected EOF"
  /\ returned (Worlds.answers 500 (inl "unexpected EOF") Worlds.quarter) Worlds.spring
     = Some (ReadError "unexpected EOF").
Proof.
  split; [reflexivity|]. split; [reflexivity|]. split; [reflexivity|].
  apply (proj1 (body_read_before_status "spring" false
                  "http://localhost:8080/metrics" "" ""
                  (Worlds.answers 500 (inl "unexpected EOF") Worlds.quarter)
                  {| http.StatusCode := 500; http.Body := inl "unexpected EOF" |}
                  eq_refl eq_refl) "unexpected EOF" eq_refl).
Defined.

(** C6: within one cycle, the measurements are sent in this order: the
    [response_duration] measurement first, the [up] measurement next,
    the payload measurements after both.  (A cycle that sends nothing
    is one whose request could not be built, or one of an exporter
    whose namespace gives no valid metric name, which panics on its
    first measurement.) *)
Theorem emission_order
    (ns : string) (insecure : bool) (uri user pw : string) (w : World) :
  let e := NewExporter ns insecure uri user pw in
  (emitted w e = [] /\ (parseURL w uri <> None \/ validNamespace ns = false))
  \/ exists (v : Z) (d u : Metric) (payload : list Metric),
       emitted w e = d :: u :: payload
       /\ durationMetric e (elapsed w) = inr d
       /\ upMetric e v = inr u
       /\ isDuration e d = true
       /\ isUp e u = true
       /\ forallb (isPayload e) payload = true.
Proof.
  intros e.
  destruct (validNamespace ns) eqn:Hns.
  - subst e. valid_cycle ns insecure uri user pw w Hns.
    set (e := NewExporter ns insecure uri user pw) in *.
    rewrite Hd, Hu0, Hu1.
    destruct (parseURL w uri) as [msg|].
    { left. split; [reflexivity | left; discriminate]. }
    right.
    destruct (roundTrip w (client e) (request e)) as [err|resp].
    { exists 0, d, u0, []. auto 10. }
    exists 1, d, u1.
    destruct (http.Body resp) as [msg|body]; [exists []; auto 10|].
    destruct (http.StatusCode resp =? 200); [|exists []; auto 10].
    destruct (json.Unmarshal body) as [data|]; [|exists []; auto 10].
    eexists. repeat split; auto.
    apply CollectFacts.forallb_isPayload_payload.
  - left. split; [|right; reflexivity].
    rewrite CollectFacts.emitted_cases. unfold e.
    rewrite (CollectFacts.durationMetric_invalid ns insecure uri user pw _ Hns).
    destruct (parseURL w _); reflexivity.
Qed.

(** C7: if the request cannot be built, because the URI does not parse,
    the cycle returns that error at once: nothing has happened before,
    no request was made, and neither an [up] nor a [response_duration]
    measurement, nor any other, is sent. *)
Theorem bad_uri_aborts
    (ns : string) (insecure : bool) (uri user pw : string) (w : World)
    (msg : string) :
  let e := NewExporter ns insecure uri user pw in
  parseURL w uri = Some msg ->
  collect w e = ([], Failed (UrlError msg))
  /\ returned w e = Some (UrlError msg)
  /\ emitted w e = []
  /\ List.filter (isUp e) (emitted w e) = []
  /\ List.filter (isDuration e) (emitted w e) = [].
Proof.
  intros e Hurl.
  assert (Hc : collect w e = ([], Failed (UrlError msg)))
    by (apply CollectFacts.collect_bad_uri; exact Hurl).
  unfold returned, emitted. rewrite Hc. repeat split; reflexivity.
Qed.

Lemma bad_uri_aborts_witness :
  parseURL (Worlds.answers 200 (inr "{}") Worlds.quarter) ":"
  = Some "missing protocol scheme"
  /\ collect (Worlds.answers 200 (inr "{}") Worlds.quarter) Worlds.misconfigured
     = ([], Failed (UrlError "missing protocol scheme")).
Proof.
  split; [reflexivity|].
  apply (bad_uri_aborts "spring" false ":" "" ""
           (Worlds.answers 200 (inr "{}") Worlds.quarter)
           "missing protocol scheme" eq_refl).
Defined.

(** C9, as the code has it: if the response status is 200 and the body
    is the JSON literal [null], which is not an object, the cycle of an
    exporter whose namespace gives valid metric names returns no error,
    does not panic, and sends the two meta-measurements only, the
    duration and [up] of value 1, and no payload measurement. *)
Theorem null_body_is_empty_payload
    (ns : string) (insecure : bool) (uri user pw : string) (w : World)
    (resp : http.Response) :
  let e := NewExporter ns insecure uri user pw in
  validNamespace ns = true ->
  received w e = Some resp ->
  http.StatusCode resp = 200 ->
  http.Body resp = inr "null" ->
  snd (collect w e) = Done tt
  /\ returned w e = None
  /\ built (emitted w e) = [durationMetric e (elapsed w); upMetric e 1]
  /\ List.filter (isPayload e) (emitted w e) = [].
Proof.
  intros e Hns. subst e.
  valid_cycle ns insecure uri user pw w Hns.
  set (e := NewExporter ns insecure uri user pw) in *.
  rewrite Hd, Hu1.
  destruct (parseURL w uri) as [msg|]; [discriminate|].
  destruct (roundTrip w (client e) (request e)) as [err|resp']; [discriminate|].
  intros Hr Hcode Hbody. injection Hr as ->.
  rewrite Hbody, Hcode.
  change (json.Unmarshal "null") with (Some (∅ : jsonData)).
  cbn [Z.eqb Pos.eqb].
  assert (E : rangeOrder w ∅ = []).
  { apply Permutation_nil_r. rewrite (rangeOrder_perm w ∅), map_to_list_empty.
    reflexivity. }
  rewrite E. cbn [payloadEvents payloadResult payloadPanic sent omap built map
                  List.filter].
  rewrite Hdp, H1p. auto.
Qed.

(** C9 as it is written fails: with a namespace that is not the start of
    a metric name, status 200 and the body [null], the cycle sends no
    measurement at all: it panics on the first one. *)
Lemma null_body_is_empty_payload_counterexample :
  received (Worlds.answers 200 (inr "null") Worlds.quarter) Worlds.myApp
  = Some {| http.StatusCode := 200; http.Body := inr "null" |}
  /\ emitted (Worlds.answers 200 (inr "null") Worlds.quarter) Worlds.myApp = []
  /\ panicked (Worlds.answers 200 (inr "null") Worlds.quarter) Worlds.myApp
     = Some (InvalidMetricName "my-app_response_duration")
  /\ snd (collect (Worlds.answers 200 (inr "null") Worlds.quarter) Worlds.myApp)
     <> Done tt.
Proof. repeat split; vm_compute; discriminate. Qed.

Lemma null_body_is_empty_payload_witness :
  validNamespace "spring" = true
  /\ received (Worlds.answers 200 (inr "null") Worlds.quarter) Worlds.spring
     = Some {| http.StatusCode := 200; http.Body := inr "null" |}
  /\ snd (collect (Worlds.answers 200 (inr "null") Worlds.quarter) Worlds.spring)
     = Done tt
  /\ returned (Worlds.answers 200 (inr "null") Worlds.quarter) Worlds.spring
     = None
  /\ built (emitted (Worlds.answers 200 (inr "null") Worlds.quarter) Worlds.spring)
     = [durationMetric Worlds.spring Worlds.quarter; upMetric Worlds.spring 1]
  /\ List.filter (isPayload Worlds.spring)
       (emitted (Worlds.answers 200 (inr "null") Worlds.quarter) Worlds.spring)
     = [].
Proof.
  split; [reflexivity|]. split; [reflexivity|].
  apply (null_body_is_empty_payload "spring" false
           "http://localhost:8080/metrics" "" ""
           (Worlds.answers 200 (inr "null") Worlds.quarter)
           {| http.StatusCode := 200; http.Body := inr "null" |}
           eq_refl eq_refl eq_refl eq_refl).
Defined.

(** C10 does not hold of the code: a payload that parsed and has the
    empty string as a key.  The map has one raw key; the sanitized key
    is empty, so is the metric name, and [MustNewConstMetric] panics on
    it: the cycle logs the row and the key, sends the two
    meta-measurements and no payload measurement, and ends in the panic,
    after the deferred close of the body. *)
Theorem empty_key_panics :
  json.Unmarshal Worlds.emptyKeyBody = Some {[ "" := float64.ofZ 1 ]}
  /\ size ({[ "" := float64.ofZ 1 ]} : jsonData) = 1%nat
  /\ keyToSnake "" = ""
  /\ payloadMetric Worlds.spring ("", float64.ofZ 1) = inl (InvalidMetricName "")
  /\ received (Worlds.answers 200 (inr Worlds.emptyKeyBody) Worlds.quarter)
              Worlds.spring
     = Some {| http.StatusCode := 200; http.Body := inr Worlds.emptyKeyBody |}
  /\ collect (Worlds.answers 200 (inr Worlds.emptyKeyBody) Worlds.quarter)
             Worlds.spring
     = ([Do (request Worlds.spring);
         Send {| desc := duration Worlds.spring; valType := GaugeValue;
                 val := Worlds.quarter |};
         Send {| desc := up Worlds.spring; valType := GaugeValue;
                 val := float64.ofZ 1 |};
         ReadAll; DebugRows 1; DebugKey "" "" (float64.ofZ 1); Close],
        Panicked (InvalidMetricName ""))
  /\ List.filter (isPayload Worlds.spring)
       (emitted (Worlds.answers 200 (inr Worlds.emptyKeyBody) Worlds.quarter)
                Worlds.spring) = []
  /\ length (List.filter (isPayload Worlds.spring)
               (emitted (Worlds.answers 200 (inr Worlds.emptyKeyBody)
                                        Worlds.quarter) Worlds.spring))
     <> size ({[ "" := float64.ofZ 1 ]} : jsonData).
Proof. repeat split; vm_compute; try reflexivity; discriminate. Qed.

(** ** Cycles on given responses *)

Module Examples.
Import prometheus Worlds.

(** A payload of two entries gives the two meta-measurements and one
    untyped measurement for each entry, named from the sanitized key,
    with the raw key as help text and the value as it is. *)
Example two_entries :
  Permutation
    (built (emitted (answers 200 (inr jvmBody) quarter) spring))
    [ durationMetric spring quarter;
      upMetric spring 1;
      inr {| desc := {| fqName := "spring_jvm_memory_used";
                        help := "jvm.memory.used" |};
             valType := UntypedValue;
             val := float64.ofZ 12345 |};
      inr {| desc := {| fqName := "spring_disk_free"; help := "disk free" |};
             valType := UntypedValue;
             val := float64.ofZ 999 |} ]
  /\ snd (collect (answers 200 (inr jvmBody) quarter) spring) = Done tt.
Proof. split; [vm_compute; reflexivity | reflexivity]. Qed.

(** A body that is not JSON, with status 200: the two meta-measurements,
    [up] of value 1, and the error of the parser. *)
Example malformed_body :
  built (emitted (answers 200 (inr "not json") quarter) spring)
  = [durationMetric spring quarter; upMetric spring 1]
  /\ returned (answers 200 (inr "not json") quarter) spring
     = Some UnmarshalError.
Proof. split; reflexivity. Qed.

(** The empty object gives the two meta-measurements and no error. *)
Example empty_object :
  built (emitted (answers 200 (inr "{}") quarter) spring)
  = [durationMetric spring quarter; upMetric spring 1]
  /\ snd (collect (answers 200 (inr "{}") quarter) spring) = Done tt.
Proof. split; reflexivity. Qed.

(** A status that is not 200 gives [up] of value 1, the duration, no
    payload measurement, and the status-mismatch error. *)
Example not_found :
  built (emitted (answers 404 (inr jvmBody) quarter) spring)
  = [durationMetric spring quarter; upMetric spring 1]
  /\ returned (answers 404 (inr jvmBody) quarter) spring
     = Some (StatusError 404).
Proof. split; reflexivity. Qed.

(** An endpoint that cannot be reached gives [up] of value 0 and the
    duration. *)
Example connection_refused :
  built (emitted (unreachable "connection refused" quarter) spring)
  = [durationMetric spring quarter; upMetric spring 0]
  /\ returned (unreachable "connection refused" quarter) spring
     = Some (ScrapeError "connection refused").
Proof. split; reflexivity. Qed.

(** A namespace with a hyphen: the request is made, and the cycle
    panics on the duration, before anything is sent. *)
Example hyphen_in_namespace :
  validNamespace "my-app" = false
  /\ collect (answers 200 (inr "{}") quarter) myApp
     = ([Do (request myApp)],
        Panicked (InvalidMetricName "my-app_response_duration"))
  /\ Collect (answers 200 (inr "{}") quarter) myApp
     = [Lock; Do (request myApp); Unlock].
Proof. repeat split; reflexivity. Qed.

(** The metric names that the library accepts. *)
Example metric_names :
  IsValidMetricName "spring_up" = true
  /\ IsValidMetricName "_:a9" = true
  /\ IsValidMetricName "" = false
  /\ IsValidMetricName "9lives" = false
  /\ IsValidMetricName "my-app_up" = false
  /\ IsValidMetricName (String "195" (String "169" "x")) = false.
Proof. repeat split; reflexivity. Qed.

(** The request carries the credentials, empty as they may be. *)
Example request_has_basic_auth :
  http.BasicAuth (request spring) = Some ("", "")
  /\ http.Method (request spring) = "GET".
Proof. split; reflexivity. Qed.

(** Nested values and values that are not numbers do not fit the type
    of the payload. *)
Example nested_value_rejected :
  json.Unmarshal ("{" +:+ q "a" +:+ ": {}}") = None
  /\ json.Unmarshal ("{" +:+ q "a" +:+ ": [1]}") = None
  /\ json.Unmarshal ("{" +:+ q "a" +:+ ": " +:+ q "1" +:+ "}") = None
  /\ json.Unmarshal "[]" = None
  /\ json.Unmarshal "1" = None.
Proof. repeat split; reflexivity. Qed.

(** One underscore for each character outside the class: a run of two
    gives two, a character of two bytes gives one. *)
Example sanitized_keys :
  keyToSnake "jvm.memory.used" = "jvm_memory_used"
  /\ keyToSnake "disk free" = "disk_free"
  /\ keyToSnake "a..b" = "a__b"
  /\ keyToSnake (String "195" (String "169" "x")) = "_x"
  /\ keyToSnake "A:z_09" = "A:z_09".
Proof. repeat split; reflexivity. Qed.

End Examples.

(** ** The exclusivity guard *)

Module ConcurrentFacts.
Import Concurrent.

Lemma length_guarded body : length (guarded body) = S (S (length body)).
Proof. unfold guarded. cbn. rewrite length_app. cbn. lia. Qed.

(** The event at each place of such a program. *)
Lemma guarded_lookup body n ev :
  Forall quiet body ->
  guarded body !! n = Some ev ->
  (n = 0%nat /\ ev = Lock)
  \/ ((0 < n < S (length body))%nat /\ quiet ev)
  \/ (n = S (length body) /\ ev = Unlock).
Proof.
  intros Hq Hn. unfold guarded in Hn. destruct n as [|n].
  - left. cbn in Hn. injection Hn as <-. auto.
  - right. change ((body ++ [Unlock]) !! n = Some ev) in Hn.
    destruct (decide (n < length body)%nat) as [Hlt|Hge].
    + left. rewrite lookup_app_l in Hn by exact Hlt. split; [lia|].
      rewrite Forall_forall in Hq. apply Hq.
      apply list_elem_of_lookup. eauto.
    + right. rewrite lookup_app_r in Hn by lia.
      destruct (n - length body)%nat as [|k] eqn:Hk; cbn in Hn; [|discriminate].
      injection Hn as <-. split; [lia | reflexivity].
Qed.

Lemma drop_cons_inv {A} (l : list A) n x rest :
  drop n l = x :: rest ->
  l !! n = Some x /\ rest = drop (S n) l /\ take (S n) l = take n l ++ [x].
Proof.
  intros H.
  assert (Hx : l !! n = Some x).
  { pose proof (lookup_drop l n 0) as E. rewrite H in E. cbn in E.
    rewrite Nat.add_0_r in E. auto. }
  split; [exact Hx|]. split.
  - rewrite (drop_S l x n Hx) in H. injection H as H. auto.
  - apply take_S_r, Hx.
Qed.

Lemma by_app c l1 l2 : by_ c (l1 ++ l2) = by_ c l1 ++ by_ c l2.
Proof. apply map_app. Qed.

Lemma pick_update_eq {A} c (x : A) p : pick c (update c x p) = x.
Proof. destruct c; reflexivity. Qed.

Lemma pick_update_other {A} c (x : A) p :
  pick (other c) (update c x p) = pick (other c) p.
Proof. destruct c; reflexivity. Qed.

Lemma other_other c : other (other c) = c.
Proof. destruct c; reflexivity. Qed.

Section Guard.

(** The program of each call. *)
Variable body : Call -> list Event.
Hypothesis body_quiet : forall c, Forall quiet (body c).

Local Abbreviation prog := (Concurrent.prog body).
Local Abbreviation len := (Concurrent.len body).
Local Abbreviation holds := (Concurrent.holds body).
Local Abbreviation Inv := (Concurrent.Inv body).

(** What one step of a call at place [n] of its program does to the
    mutex. *)
Lemma step_at (c : Call) (st : State) (n : nat) (st' : State) :
  todo st c = drop n (prog c) ->
  step c st = Some st' ->
  (n < len c)%nat
  /\ todo st' c = drop (S n) (prog c)
  /\ todo st' (other c) = todo st (other c)
  /\ (exists ev, take (S n) (prog c) = take n (prog c) ++ [ev]
                 /\ trace st' = trace st ++ [(c, ev)])
  /\ (n = 0%nat -> locked st = false /\ locked st' = true)
  /\ ((0 < n)%nat -> S n < len c -> locked st' = locked st)%nat
  /\ (S n = len c -> locked st = true /\ locked st' = false).
Proof.
  intros Htodo Hstep. unfold step in Hstep. rewrite Htodo in Hstep.
  destruct (drop n (prog c)) as [|ev rest] eqn:Hdrop; [discriminate|].
  destruct (drop_cons_inv _ _ _ _ Hdrop) as (Hev & -> & Htake).
  assert (Hn : (n < len c)%nat).
  { apply lookup_lt_Some in Hev. unfold Concurrent.prog in Hev.
    rewrite length_guarded in Hev. exact Hev. }
  split; [exact Hn|].
  destruct (guarded_lookup _ _ _ (body_quiet c) Hev)
    as [[-> ->] | [[Hmid [Hnl Hnu]] | [-> ->]]].
  - destruct (locked st) eqn:Hl; [discriminate|]. injection Hstep as <-.
    unfold todo. cbn [pending trace locked]. rewrite pick_update_eq, pick_update_other.
    repeat split; eauto; try (intros; unfold Concurrent.len in *; lia).
  - assert (Hst : st' = {| locked := locked st;
                           pending := update c (drop (S n) (prog c)) (pending st);
                           trace := trace st ++ [(c, ev)] |})
      by (destruct ev; congruence).
    subst st'. unfold todo. cbn [pending trace locked]. rewrite pick_update_eq, pick_update_other.
    repeat split; eauto; try (intros; unfold Concurrent.len in *; lia).
  - destruct (locked st) eqn:Hl; [|discriminate]. injection Hstep as <-.
    unfold todo. cbn [pending trace locked]. rewrite pick_update_eq, pick_update_other.
    repeat split; eauto; try (intros; unfold Concurrent.len in *; lia).
Qed.

Lemma holds_0 c : holds c 0 = false.
Proof. reflexivity. Qed.

Lemma holds_len c : holds c (len c) = false.
Proof. unfold Concurrent.holds. rewrite Nat.ltb_irrefl. apply andb_false_r. Qed.

Lemma holds_mid c n : (0 < n < len c)%nat -> holds c n = true.
Proof.
  intros [H1 H2]. unfold Concurrent.holds.
  apply Nat.ltb_lt in H1, H2. rewrite H1, H2. reflexivity.
Qed.

(** The invariant is kept by every step, with the calls in the same
    order or, when the second call starts before the first has begun,
    in the other order. *)
Lemma step_Inv (d : Call) (st st' : State) (c : Call) (n m : nat) :
  Inv st c n m ->
  step d st = Some st' ->
  exists c' n' m', Inv st' c' n' m'.
Proof.
  intros (Hn & Hm & Hnm & Htc & Hto & Htr & Hl) Hstep.
  destruct (decide (d = c)) as [->|Hd].
  - (* the call [c] steps: the other call has not begun *)
    destruct (step_at c st n st' Htc Hstep)
      as (Hlt & Htc' & Hto' & (ev & Htake & Htr') & H0 & Hmid & Hend).
    destruct Hnm as [-> | ->]; [|lia].
    exists c, (S n), 0%nat. unfold Concurrent.Inv.
    rewrite Htc', Hto', Hto, Htr', Htr, Htake, by_app. cbn [take by_ map].
    rewrite !app_nil_r, holds_0, orb_false_r in *.
    repeat split; auto; try lia.
    destruct (decide (n = 0%nat)) as [->|Hn0].
    + destruct (H0 eq_refl) as [_ ->]. symmetry. apply holds_mid. unfold Concurrent.len. lia.
    + destruct (decide (S n = len c)) as [He|He].
      * destruct (Hend He) as [_ ->]. rewrite He. symmetry. apply holds_len.
      * rewrite Hmid, Hl by lia. rewrite !holds_mid by lia. reflexivity.
  - (* the other call steps *)
    assert (d = other c) as -> by (destruct d, c; simpl; congruence).
    destruct (step_at (other c) st m st' Hto Hstep)
      as (Hlt & Hto' & Htc' & (ev & Htake & Htr') & H0 & Hmid & Hend).
    rewrite other_other in Htc'.
    destruct (decide (m = 0%nat)) as [->|Hm0].
    + destruct (H0 eq_refl) as [Hfree Hl'].
      rewrite Hfree, holds_0, orb_false_r in Hl.
      destruct (decide (n = 0%nat)) as [->|Hn0].
      * (* the first call has not begun either: the order changes *)
        exists (other c), 1%nat, 0%nat. unfold Concurrent.Inv. rewrite other_other.
        rewrite Hto', Htc', Htc, Htr', Htr, Htake. cbn [take by_ map app].
        rewrite holds_0, orb_false_r, Hl'.
        repeat split; auto; try (unfold Concurrent.len; lia).
      * assert (n = len c) as ->.
        { destruct (decide (n = len c)); [assumption|].
          rewrite holds_mid in Hl by lia. discriminate. }
        exists c, (len c), 1%nat. unfold Concurrent.Inv.
        rewrite Hto', Htc', Htc, Htr', Htr, Htake, by_app. cbn [take by_ map].
        rewrite holds_len, Hl'. cbn [orb].
        repeat split; auto; try (unfold Concurrent.len; lia);
          try (rewrite app_assoc; reflexivity).
    + destruct Hnm as [-> | ->]; [lia|].
      exists c, (len c), (S m). unfold Concurrent.Inv.
      rewrite Hto', Htc', Htc, Htr', Htr, Htake, by_app, app_assoc.
      rewrite holds_len in *. cbn [orb] in *.
      repeat split; auto; try lia.
      destruct (decide (S m = len (other c))) as [He|He].
      * destruct (Hend He) as [_ ->]. rewrite He. symmetry. apply holds_len.
      * rewrite Hmid, Hl by lia. rewrite !holds_mid by lia. reflexivity.
Qed.

Lemma run_Inv (schedule : list Call) (st st' : State) (c : Call) (n m : nat) :
  Inv st c n m ->
  run schedule st = Some st' ->
  exists c' n' m', Inv st' c' n' m'.
Proof.
  revert st c n m. induction schedule as [|d rest IH]; intros st c n m HI Hrun.
  - injection Hrun as <-. eauto.
  - cbn [run] in Hrun. destruct (step d st) as [st1|] eqn:Hstep; [|discriminate].
    destruct (step_Inv d st st1 c n m HI Hstep) as (c1 & n1 & m1 & HI1).
    eapply IH; eauto.
Qed.

(** A call that is not over and is not waiting for the mutex can take
    a step. *)
Lemma can_step (c : Call) (st : State) (n : nat) :
  todo st c = drop n (prog c) ->
  (n < len c)%nat ->
  (n = 0%nat -> locked st = false) ->
  ((0 < n)%nat -> locked st = true) ->
  is_Some (step c st).
Proof.
  intros Htodo Hlt H0 Hpos.
  assert (Hsome : is_Some (prog c !! n)).
  { apply lookup_lt_is_Some. unfold Concurrent.prog. rewrite length_guarded. exact Hlt. }
  destruct Hsome as [ev Hev].
  unfold step. rewrite Htodo, (drop_S _ _ _ Hev).
  destruct (guarded_lookup _ _ _ (body_quiet c) Hev)
    as [[-> ->] | [[Hmid [Hnl Hnu]] | [-> ->]]].
  - rewrite H0 by reflexivity. eauto.
  - destruct ev; eauto; congruence.
  - rewrite Hpos by lia. eauto.
Qed.

End Guard.

End ConcurrentFacts.

(** *** [Collect] has the shape that the guard needs *)

Module CollectShape.
Import Concurrent ConcurrentFacts.

Lemma Collect_guarded w e : Collect w e = guarded (cycleBody w e).
Proof.
  unfold Collect, guarded, cycleBody. destruct (collect w e) as [tr r].
  cbn [fst snd app]. rewrite <- app_assoc. reflexivity.
Qed.

Lemma quiet_payloadEvents e entries :
  Forall quiet (payloadEvents e entries).
Proof.
  induction entries as [|entry rest IH]; [constructor|].
  cbn [payloadEvents]. apply Forall_cons. split; [split; discriminate|].
  destruct (payloadMetric e entry); [constructor|].
  apply Forall_cons. split; [split; discriminate | exact IH].
Qed.

(** On every way through the cycle, a panic included, the cycle does
    not touch the mutex. *)
Lemma quiet_cycleBody w e : Forall quiet (cycleBody w e).
Proof.
  unfold cycleBody. rewrite (CollectFacts.collect_cases w e).
  destruct (parseURL w (URI e)) as [msg|];
    [repeat constructor; discriminate|].
  destruct (durationMetric e (elapsed w)) as [p|d];
    [repeat constructor; discriminate|].
  destruct (roundTrip w (client e) (request e)) as [err|resp].
  { destruct (upMetric e 0); repeat constructor; discriminate. }
  destruct (upMetric e 1) as [p|u]; [repeat constructor; discriminate|].
  destruct (http.Body resp) as [msg|body];
    [repeat constructor; discriminate|].
  destruct (http.StatusCode resp =? 200);
    [|repeat constructor; discriminate].
  destruct (json.Unmarshal body) as [data|];
    [|repeat constructor; discriminate].
  cbn [fst snd].
  apply Forall_app. split.
  - repeat (apply Forall_cons; split; [split; discriminate|]).
    apply Forall_app. split; [apply quiet_payloadEvents|].
    repeat constructor; discriminate.
  - destruct (payloadResult e (rangeOrder w data));
      repeat constructor; discriminate.
Qed.

Lemma init_Inv (w : Concurrent.Call -> World) e :
  Concurrent.Inv (fun c => cycleBody (w c) e) (Concurrent.init w e) Concurrent.CallA 0 0.
Proof.
  unfold Concurrent.Inv, Concurrent.prog, Concurrent.len, Concurrent.holds, Concurrent.init. unfold Concurrent.todo. cbn [Concurrent.pending Concurrent.trace Concurrent.locked Concurrent.pick fst snd Concurrent.other].
  rewrite !Collect_guarded. repeat split; auto; lia.
Qed.

End CollectShape.

Module GuardFacts.
Import Concurrent ConcurrentFacts.

Lemma by_lookup c l i c' ev :
  by_ c l !! i = Some (c', ev) -> c' = c /\ l !! i = Some ev.
Proof.
  unfold by_. rewrite list_lookup_fmap. destruct (l !! i); cbn; [|discriminate].
  intros H. injection H as <- <-. auto.
Qed.

Lemma length_by c l : length (by_ c l) = length l.
Proof. apply length_map. Qed.

Lemma drop_nil_inv {A} (l : list A) n :
  (n <= length l)%nat -> drop n l = [] -> n = length l.
Proof.
  intros Hle H. apply (f_equal length) in H. rewrite length_drop in H.
  cbn in H. lia.
Qed.

Lemma other_ne c : other c <> c.
Proof. destruct c; discriminate. Qed.

End GuardFacts.

(** C8: at most one collection cycle is in flight at a time.  However
    two calls on one exporter are scheduled, what has happened at any
    moment is a first part of the whole cycle of one call followed by a
    first part of the cycle of the other, and the other has done
    nothing unless the first is over.  So when a call makes its
    request after the other call has done anything, the whole cycle of
    that other call, its sends and its [Unlock] included, is already in
    the past.  Each call does the events of its own cycle, in its own
    world: once both are over, what has happened is the whole cycle of
    one and then the whole cycle of the other.  And some call can always
    take a step until both are over. *)
Theorem collects_do_not_interleave
    (e : Exporter) (w : Concurrent.Call -> World)
    (schedule : list Concurrent.Call) (st : Concurrent.State) :
  Concurrent.run schedule (Concurrent.init w e) = Some st ->
  (exists (c : Concurrent.Call) (n m : nat),
      Concurrent.trace st
      = Concurrent.by_ c (take n (Collect (w c) e))
          ++ Concurrent.by_ (Concurrent.other c)
                            (take m (Collect (w (Concurrent.other c)) e))
      /\ Concurrent.todo st c = drop n (Collect (w c) e)
      /\ Concurrent.todo st (Concurrent.other c)
         = drop m (Collect (w (Concurrent.other c)) e)
      /\ (m = 0%nat \/ Concurrent.todo st c = []))
  /\ (forall (c : Concurrent.Call) (i j : nat) (ev : Event) (req : http.Request),
        Concurrent.trace st !! i = Some (c, ev) ->
        Concurrent.trace st !! j = Some (Concurrent.other c, Do req) ->
        (i < j)%nat ->
        take (length (Collect (w c) e)) (Concurrent.trace st)
        = Concurrent.by_ c (Collect (w c) e)
        /\ (length (Collect (w c) e) <= j)%nat)
  /\ (Concurrent.todo st Concurrent.CallA = [] ->
      Concurrent.todo st Concurrent.CallB = [] ->
      exists c : Concurrent.Call,
        Concurrent.trace st
        = Concurrent.by_ c (Collect (w c) e)
            ++ Concurrent.by_ (Concurrent.other c)
                              (Collect (w (Concurrent.other c)) e))
  /\ (Concurrent.todo st Concurrent.CallA <> []
      \/ Concurrent.todo st Concurrent.CallB <> [] ->
      exists c : Concurrent.Call, is_Some (Concurrent.step c st)).
Proof.
  intros Hrun.
  pose (body := fun c => cycleBody (w c) e).
  assert (Hq : forall c, Forall Concurrent.quiet (body c))
    by (intros c; apply CollectShape.quiet_cycleBody).
  destruct (ConcurrentFacts.run_Inv body Hq schedule _ st _ _ _
              (CollectShape.init_Inv w e) Hrun) as (c & n & m & HI).
  destruct HI as (Hn & Hm & Hnm & Htc & Hto & Htr & Hl).
  assert (HP : forall c, Concurrent.guarded (body c) = Collect (w c) e)
    by (intros c'; symmetry; apply CollectShape.Collect_guarded).
  assert (HL : forall c, S (S (length (body c))) = length (Collect (w c) e))
    by (intros c'; rewrite <- HP; symmetry; apply ConcurrentFacts.length_guarded).
  unfold Concurrent.prog, Concurrent.len in *.
  rewrite (HP c) in Htc, Htr. rewrite (HP (Concurrent.other c)) in Hto, Htr.
  rewrite (HL c) in Hn, Hnm. rewrite (HL (Concurrent.other c)) in Hm.
  assert (Hover : m = 0%nat \/ Concurrent.todo st c = []).
  { destruct Hnm as [-> | ->]; [left; reflexivity | right].
    rewrite Htc. apply drop_all. }
  split; [|split; [|split]].
  - exists c, n, m. repeat split; assumption.
  - intros d i j ev req Hi Hj Hij.
    rewrite Htr in Hi, Hj.
    assert (Hlen : length (Concurrent.by_ c (take n (Collect (w c) e))) = n).
    { rewrite GuardFacts.length_by, length_take. lia. }
    destruct (decide (j < n)%nat) as [Hjn|Hjn].
    + (* the request is in the first part: the earlier event is too *)
      rewrite lookup_app_l in Hj by lia. rewrite lookup_app_l in Hi by lia.
      apply GuardFacts.by_lookup in Hi, Hj. destruct Hi as [-> _], Hj as [Hj _].
      destruct (GuardFacts.other_ne _ Hj).
    + (* the request is in the second part *)
      rewrite lookup_app_r in Hj by lia.
      apply GuardFacts.by_lookup in Hj. destruct Hj as [Hd Hj].
      assert (d = c) as -> by (destruct d, c; simpl in Hd; congruence).
      assert (Hm0 : m <> 0%nat).
      { intros ->. rewrite take_0 in Hj. discriminate. }
      destruct Hnm as [-> | ->]; [contradiction|].
      rewrite Htr, firstn_all, take_app_length'
        by (rewrite GuardFacts.length_by; reflexivity).
      split; [reflexivity | lia].
  - intros HA HB. exists c.
    assert (Hc : Concurrent.todo st c = []) by (destruct c; assumption).
    assert (Ho : Concurrent.todo st (Concurrent.other c) = [])
      by (destruct c; assumption).
    rewrite Htc in Hc. rewrite Hto in Ho.
    apply GuardFacts.drop_nil_inv in Hc, Ho; try assumption.
    rewrite Htr, Hc, Ho, !firstn_all. reflexivity.
  - intros Htodo.
    assert (Hlc : forall c' k, (k <= length (Collect (w c') e))%nat ->
                   drop k (Collect (w c') e) <> [] ->
                   (k < length (Collect (w c') e))%nat).
    { intros c' k Hk Hne. destruct (decide (k = length (Collect (w c') e))) as [->|];
        [|lia]. rewrite drop_all in Hne. contradiction. }
    rewrite <- (HP c) in Htc. rewrite <- (HP (Concurrent.other c)) in Hto.
    pose proof (HL c) as HLc. pose proof (HL (Concurrent.other c)) as HLo.
    destruct (decide (0 < n < length (Collect (w c) e))%nat) as [Hmid|Hmid].
    { exists c. apply (ConcurrentFacts.can_step body Hq c st n Htc); try (unfold Concurrent.len; lia).
      intros _. rewrite Hl, ConcurrentFacts.holds_mid by (unfold Concurrent.len; lia). reflexivity. }
    destruct (decide (0 < m < length (Collect (w (Concurrent.other c)) e))%nat)
      as [Hmid'|Hmid'].
    { exists (Concurrent.other c).
      apply (ConcurrentFacts.can_step body Hq _ st m Hto); try (unfold Concurrent.len; lia).
      intros _. rewrite Hl, (ConcurrentFacts.holds_mid _ (Concurrent.other c))
        by (unfold Concurrent.len; lia). apply orb_true_r. }
    assert (Hfree : Concurrent.locked st = false).
    { rewrite Hl. unfold Concurrent.holds, Concurrent.len. rewrite !HL.
      destruct (Nat.ltb_spec 0 n), (Nat.ltb_spec n (length (Collect (w c) e))),
        (Nat.ltb_spec 0 m),
        (Nat.ltb_spec m (length (Collect (w (Concurrent.other c)) e)));
        cbn; auto; lia. }
    assert (Hone : Concurrent.todo st c <> []
                   \/ Concurrent.todo st (Concurrent.other c) <> [])
      by (destruct c; cbn [Concurrent.other]; tauto).
    destruct Hone as [Hne|Hne].
    + exists c. rewrite Htc, HP in Hne. apply Hlc in Hne; [|exact Hn].
      apply (ConcurrentFacts.can_step body Hq c st n Htc); try (unfold Concurrent.len; lia).
      intros _. exact Hfree.
    + exists (Concurrent.other c). rewrite Hto, HP in Hne.
      apply Hlc in Hne; [|exact Hm].
      apply (ConcurrentFacts.can_step body Hq _ st m Hto); try (unfold Concurrent.len; lia).
      intros _. exact Hfree.
Qed.

Lemma collects_do_not_interleave_witness :
  exists st : Concurrent.State,
    Concurrent.run Concurrent.secondGoesFirst
      (Concurrent.init Concurrent.upThenDown Worlds.spring) = Some st
    /\ exists (c : Concurrent.Call) (n m : nat),
         Concurrent.trace st
         = Concurrent.by_ c (take n (Collect (Concurrent.upThenDown c) Worlds.spring))
             ++ Concurrent.by_ (Concurrent.other c)
                  (take m (Collect (Concurrent.upThenDown (Concurrent.other c))
                                   Worlds.spring))
         /\ Concurrent.todo st c
            = drop n (Collect (Concurrent.upThenDown c) Worlds.spring)
         /\ Concurrent.todo st (Concurrent.other c)
            = drop m (Collect (Concurrent.upThenDown (Concurrent.other c))
                              Worlds.spring)
         /\ (m = 0%nat \/ Concurrent.todo st c = []).
Proof.
  eexists. split; [vm_compute; reflexivity|].
  apply (collects_do_not_interleave Worlds.spring Concurrent.upThenDown
           Concurrent.secondGoesFirst).
  vm_compute. reflexivity.
Defined.

(** ** More on the collection cycle *)

Module CycleMore.
Import prometheus Trace.

Lemma count_app p l1 l2 : count p (l1 ++ l2) = (count p l1 + count p l2)%nat.
Proof. unfold count. rewrite List.filter_app, length_app. reflexivity. Qed.

(** The loop over the payload logs and sends, and does nothing else. *)
Lemma count_payloadEvents p e entries :
  (forall k1 k2 v, p (DebugKey k1 k2 v) = false) ->
  (forall m, p (Send m) = false) ->
  count p (payloadEvents e entries) = 0%nat.
Proof.
  intros Hk Hs. induction entries as [|entry rest IH]; [reflexivity|].
  unfold count in *. cbn [payloadEvents List.filter]. rewrite Hk.
  destruct (payloadMetric e entry); [reflexivity|].
  cbn [List.filter]. rewrite Hs. exact IH.
Qed.

(** It sends one metric for each entry it gets through. *)
Lemma count_isSend_payloadEvents e entries :
  count isSend (payloadEvents e entries) = length (served e entries).
Proof.
  induction entries as [|entry rest IH]; [reflexivity|].
  unfold count in *. cbn [payloadEvents served List.filter isSend].
  destruct (payloadMetric e entry); [reflexivity|].
  cbn [List.filter isSend length]. rewrite IH. reflexivity.
Qed.

(** It logs one line for each of these entries, and one more for the
    entry on which it panics. *)
Lemma count_isDebugKey_payloadEvents e entries :
  count isDebugKey (payloadEvents e entries)
  = (length (served e entries)
     + match payloadPanic e entries with Some _ => 1 | None => 0 end)%nat.
Proof.
  induction entries as [|entry rest IH]; [reflexivity|].
  unfold count in *.
  cbn [payloadEvents served payloadPanic List.filter isDebugKey length].
  destruct (payloadMetric e entry); [reflexivity|].
  cbn [List.filter isDebugKey length]. rewrite IH. reflexivity.
Qed.

Lemma length_served e entries :
  (length (served e entries) <= length entries)%nat
  /\ (payloadPanic e entries = None -> length (served e entries) = length entries)
  /\ (payloadPanic e entries <> None ->
      (length (served e entries) < length entries)%nat).
Proof.
  induction entries as [|entry rest (IH1 & IH2 & IH3)];
    [cbn; repeat split; auto; congruence|].
  cbn [served payloadPanic length].
  destruct (payloadMetric e entry); cbn [length].
  - repeat split; [lia | discriminate | lia].
  - repeat split; [lia | intros H; rewrite IH2; auto | intros H; apply IH3 in H; lia].
Qed.

Lemma length_rangeOrder w (data : jsonData) :
  length (rangeOrder w data) = size data.
Proof. rewrite (rangeOrder_perm w data). apply length_map_to_list. Qed.

(** The loop over a map ends without a panic when every key of the map
    has a valid name, whatever the order. *)
Lemma payloadPanic_rangeOrder w e (data : jsonData) :
  payloadPanic e (rangeOrder w data) = None
  <-> map_Forall (fun key _ => validKey e key = true) data.
Proof.
  rewrite CollectFacts.payloadPanic_None, map_Forall_to_list.
  rewrite (rangeOrder_perm w data).
  apply Forall_proper; [|reflexivity]. intros [key value]. reflexivity.
Qed.

(** When the loop does not panic, it sends the metric of each entry. *)
Lemma sent_payloadEvents_all e entries :
  payloadPanic e entries = None ->
  sent (payloadEvents e entries)
  = map (fun entry => {| desc := payloadDesc e (fst entry);
                         valType := UntypedValue;
                         val := snd entry |}) entries.
Proof.
  induction entries as [|entry rest IH]; [reflexivity|].
  rewrite CollectFacts.sent_payloadEvents_cons. cbn [payloadPanic map].
  destruct (payloadMetric e entry) as [p|m] eqn:E; [discriminate|].
  intros H. apply CollectFacts.MustNewConstMetric_inr in E.
  destruct E as [-> _]. f_equal. apply IH, H.
Qed.

Lemma payloadResult_Done e entries :
  payloadResult e entries = Done tt <-> payloadPanic e entries = None.
Proof.
  unfold payloadResult. destruct (payloadPanic e entries);
    split; congruence.
Qed.

(** The names of both descriptors decide whether the meta-measurements
    can be built. *)
Lemma meta_cases e :
  (validMeta e = true
   /\ (forall secs, durationMetric e secs
                    = inr {| desc := duration e; valType := GaugeValue;
                             val := secs |})
   /\ (forall v, upMetric e v
                 = inr {| desc := up e; valType := GaugeValue;
                          val := float64.ofZ v |}))
  \/ (validMeta e = false
      /\ (forall secs, durationMetric e secs
                       = inl (InvalidMetricName (fqName (duration e)))))
  \/ (validMeta e = false
      /\ (forall secs, durationMetric e secs
                    = inr {| desc := duration e; valType := GaugeValue;
                             val := secs |})
      /\ (forall v, upMetric e v = inl (InvalidMetricName (fqName (up e))))).
Proof.
  unfold validMeta, durationMetric, upMetric.
  destruct (IsValidMetricName (fqName (duration e))) eqn:Hd;
    [destruct (IsValidMetricName (fqName (up e))) eqn:Hu|].
  - left. repeat split; intros;
      apply CollectFacts.MustNewConstMetric_valid; assumption.
  - right. right. repeat split; intros;
      [apply CollectFacts.MustNewConstMetric_valid
      |apply CollectFacts.MustNewConstMetric_invalid]; assumption.
  - right. left. repeat split; intros;
      apply CollectFacts.MustNewConstMetric_invalid; assumption.
Qed.

End CycleMore.

(** A tactic for the proofs below: rewrite the cycle by the way it
    goes, and go through the ways. *)
Ltac by_cases_of_cycle w e :=
  rewrite ?CollectFacts.received_eq;
  unfold emitted, returned, panicked, Collect;
  rewrite ?(CollectFacts.collect_cases w e);
  destruct (CycleMore.meta_cases e)
    as [(?Hmeta & ?Hd & ?Hu)|[(?Hmeta & ?Hd)|(?Hmeta & ?Hd & ?Hu)]];
  rewrite ?Hmeta, ?Hd, ?Hu;
  (destruct (parseURL w (URI e)) as [?msg|] eqn:?Hurl;
   [|destruct (roundTrip w (client e) (request e)) as [?err|?resp] eqn:?Hdo;
     [|destruct (http.Body resp) as [?msg|?body] eqn:?Hbody;
       [|destruct (Z.eqb_spec (http.StatusCode resp) 200) as [?Hcode|?Hcode];
         [destruct (json.Unmarshal body) as [?data|] eqn:?Hjson|]]]]);
  cbn [fst snd].

Module LockMore.
Import Concurrent Trace.

Lemma count_quiet_isLock body :
  Forall quiet body -> count isLock body = 0%nat.
Proof.
  induction 1 as [|ev body [Hl _] _ IH]; [reflexivity|].
  unfold count in *. cbn [List.filter].
  destruct ev; try contradiction; exact IH.
Qed.

Lemma count_quiet_isUnlock body :
  Forall quiet body -> count isUnlock body = 0%nat.
Proof.
  induction 1 as [|ev body [_ Hu] _ IH]; [reflexivity|].
  unfold count in *. cbn [List.filter].
  destruct ev; try contradiction; exact IH.
Qed.

Lemma guarded_locks_once body :
  Forall quiet body ->
  head (guarded body) = Some Lock
  /\ last (guarded body) = Some Unlock
  /\ count isLock (guarded body) = 1%nat
  /\ count isUnlock (guarded body) = 1%nat.
Proof.
  intros Hq. unfold guarded. repeat split.
  - rewrite app_comm_cons. apply last_snoc.
  - change (Lock :: body ++ [Unlock]) with ([Lock] ++ body ++ [Unlock]).
    rewrite !CycleMore.count_app, (count_quiet_isLock body Hq). reflexivity.
  - change (Lock :: body ++ [Unlock]) with ([Lock] ++ body ++ [Unlock]).
    rewrite !CycleMore.count_app, (count_quiet_isUnlock body Hq). reflexivity.
Qed.

End LockMore.

(** X4: whatever happens in the cycle, a call of [Collect] locks the
    mutex first and unlocks it last, and does each exactly once: the
    mutex is released on every way out. *)
Theorem Collect_locks_once (w : World) (e : Exporter) :
  head (Collect w e) = Some Lock
  /\ last (Collect w e) = Some Unlock
  /\ Trace.count Trace.isLock (Collect w e) = 1%nat
  /\ Trace.count Trace.isUnlock (Collect w e) = 1%nat.
Proof.
  rewrite CollectShape.Collect_guarded.
  apply LockMore.guarded_locks_once, CollectShape.quiet_cycleBody.
Qed.

Ltac count_events :=
  rewrite ?CycleMore.count_app;
  rewrite ?CycleMore.count_isSend_payloadEvents,
          ?CycleMore.count_isDebugKey_payloadEvents;
  rewrite ?CycleMore.count_payloadEvents by reflexivity;
  try reflexivity.

Module ErrorfMore.
Import Trace.

Lemma payload_logs_no_error e entries err :
  ~ In (Errorf err) (payloadEvents e entries).
Proof.
  induction entries as [|entry rest IH]; [intros []|].
  cbn [payloadEvents]. intros [H|H]; [discriminate|].
  destruct (payloadMetric e entry); [destruct H|].
  destruct H as [H|H]; [discriminate | apply IH, H].
Qed.

(** The cycle itself logs no error: [Collect] does. *)
Lemma collect_logs_no_error w e err : ~ In (Errorf err) (fst (collect w e)).
Proof.
  by_cases_of_cycle w e;
    try (cbn; intuition discriminate).
  rewrite !in_app_iff. intros [H|[H|H]].
  - cbn in H. intuition discriminate.
  - apply (payload_logs_no_error _ _ _ H).
  - cbn in H. intuition discriminate.
Qed.

Lemma count_no_errorf tr :
  (forall err, ~ In (Errorf err) tr) -> count isErrorf tr = 0%nat.
Proof.
  induction tr as [|ev tr IH]; [reflexivity|]. intros H.
  unfold count in *. cbn [List.filter].
  destruct ev; try (apply IH; intros err Hin; apply (H err); right; exact Hin).
  exfalso. eapply H. left. reflexivity.
Qed.

End ErrorfMore.

(** X5: [Collect] sends on the channel exactly what the cycle sends, and
    logs the error of the cycle, once, exactly when the cycle returned
    one: no error is lost and none is made up. *)
Theorem Collect_reports_the_error (w : World) (e : Exporter) :
  sent (Collect w e) = emitted w e
  /\ (forall err, In (Errorf err) (Collect w e) <-> returned w e = Some err)
  /\ Trace.count Trace.isErrorf (Collect w e)
     = match returned w e with Some _ => 1%nat | None => 0%nat end.
Proof.
  pose proof (ErrorfMore.collect_logs_no_error w e) as Hno.
  unfold Collect, emitted, returned in *.
  destruct (collect w e) as [tr r]. cbn [fst snd] in *.
  split; [|split].
  - rewrite !CollectFacts.sent_app.
    destruct r; cbn; rewrite app_nil_r; reflexivity.
  - intros err. rewrite !in_app_iff. split.
    + intros [H|[H|[H|H]]].
      * cbn in H. intuition discriminate.
      * destruct (Hno err H).
      * destruct r as [x|err'|p]; cbn in H; try contradiction.
        destruct H as [H|[]]. congruence.
      * cbn in H. intuition discriminate.
    + destruct r as [x|err'|p]; try discriminate.
      intros H. injection H as ->. right. right. left. left. reflexivity.
  - rewrite !CycleMore.count_app, (ErrorfMore.count_no_errorf tr Hno).
    destruct r; reflexivity.
Qed.

Lemma Collect_reports_the_error_witness :
  returned (Worlds.unreachable "connection refused" Worlds.quarter) Worlds.spring
  = Some (ScrapeError "connection refused")
  /\ In (Errorf (ScrapeError "connection refused"))
        (Collect (Worlds.unreachable "connection refused" Worlds.quarter)
                 Worlds.spring).
Proof.
  split; [reflexivity|].
  apply (proj1 (proj2 (Collect_reports_the_error
                         (Worlds.unreachable "connection refused" Worlds.quarter)
                         Worlds.spring))).
  reflexivity.
Defined.

(** X6: when both descriptors of the exporter have valid names, the body
    of the response is read once and closed once in every cycle in
    which a response was received, whatever the cycle then returns and
    also when it panics on a payload measurement, and closing it is the
    last thing the cycle does; in a cycle without a response there is
    nothing to read or close.  When a descriptor has no valid name, the
    cycle panics before it reads: the body is neither read nor closed. *)
Theorem body_is_closed (w : World) (e : Exporter) :
  let n := if validMeta e
           then match received w e with Some _ => 1%nat | None => 0%nat end
           else 0%nat in
  Trace.count Trace.isReadAll (fst (collect w e)) = n
  /\ Trace.count Trace.isClose (fst (collect w e)) = n
  /\ (n = 1%nat -> last (fst (collect w e)) = Some Close).
Proof.
  by_cases_of_cycle w e; repeat split; count_events; try discriminate.
  intros _. rewrite app_assoc. apply last_snoc.
Qed.

Lemma body_is_closed_witness :
  (if validMeta Worlds.spring
   then match received (Worlds.answers 200 (inr Worlds.emptyKeyBody) Worlds.quarter)
                       Worlds.spring with
        | Some _ => 1%nat
        | None => 0%nat
        end
   else 0%nat) = 1%nat
  /\ last (fst (collect (Worlds.answers 200 (inr Worlds.emptyKeyBody) Worlds.quarter)
                        Worlds.spring)) = Some Close.
Proof.
  split; [reflexivity|].
  apply (proj2 (proj2 (body_is_closed
                         (Worlds.answers 200 (inr Worlds.emptyKeyBody) Worlds.quarter)
                         Worlds.spring))).
  reflexivity.
Defined.

(** X7: a cycle makes one request when the URI parses and none when it
    does not; the request is the first thing that happens, before
    anything is sent; it is a GET of the configured URI with the
    configured credentials as basic authentication, empty or not. *)
Theorem one_request_per_cycle (w : World) (e : Exporter) :
  Trace.count Trace.isDo (fst (collect w e))
  = match parseURL w (URI e) with None => 1%nat | Some _ => 0%nat end
  /\ match parseURL w (URI e) with
     | None => head (fst (collect w e)) = Some (Do (request e))
     | Some _ => fst (collect w e) = []
     end
  /\ http.Method (request e) = "GET"
  /\ http.URL (request e) = URI e
  /\ http.BasicAuth (request e) = Some (basicAuthUser e, basicAuthPassword e).
Proof.
  by_cases_of_cycle w e; repeat split; count_events.
Qed.

(** X8: a cycle comes to its end, with no error and no panic, exactly
    when both descriptors of the exporter have valid names, a response
    was received, its body was read, its status was 200, the body
    parsed, and every key of the parsed map gives a valid metric
    name. *)
Theorem cycle_succeeds_iff (w : World) (e : Exporter) :
  snd (collect w e) = Done tt
  <-> validMeta e = true
      /\ exists resp body data,
           received w e = Some resp
           /\ http.Body resp = inr body
           /\ http.StatusCode resp = 200
           /\ json.Unmarshal body = Some data
           /\ map_Forall (fun key _ => validKey e key = true) data.
Proof.
  by_cases_of_cycle w e; split;
    try discriminate;
    try (intros [Hv _]; discriminate);
    try (intros (_ & r' & b' & d' & Hr & Hb & Hc & Hj & Hk); try discriminate;
         injection Hr as <-; congruence).
  - intros H. split; [reflexivity|].
    apply CycleMore.payloadResult_Done, CycleMore.payloadPanic_rangeOrder in H.
    eauto 10.
  - intros (_ & r' & b' & d' & Hr & Hb & Hc & Hj & Hk).
    injection Hr as <-. rewrite Hbody in Hb. injection Hb as <-.
    rewrite Hjson in Hj. injection Hj as <-.
    apply CycleMore.payloadResult_Done, CycleMore.payloadPanic_rangeOrder, Hk.
Qed.

Lemma cycle_succeeds_iff_witness :
  (validMeta Worlds.spring = true
   /\ exists resp body data,
        received (Worlds.answers 200 (inr "{}") Worlds.quarter) Worlds.spring
        = Some resp
        /\ http.Body resp = inr body
        /\ http.StatusCode resp = 200
        /\ json.Unmarshal body = Some data
        /\ map_Forall (fun key _ => validKey Worlds.spring key = true) data)
  /\ snd (collect (Worlds.answers 200 (inr "{}") Worlds.quarter) Worlds.spring)
     = Done tt.
Proof.
  assert (H : validMeta Worlds.spring = true
   /\ exists resp body data,
        received (Worlds.answers 200 (inr "{}") Worlds.quarter) Worlds.spring
        = Some resp
        /\ http.Body resp = inr body
        /\ http.StatusCode resp = 200
        /\ json.Unmarshal body = Some data
        /\ map_Forall (fun key _ => validKey Worlds.spring key = true) data).
  { split; [reflexivity|].
    exists {| http.StatusCode := 200; http.Body := inr "{}" |}, "{}", ∅.
    repeat split; try reflexivity. apply map_Forall_empty. }
  split; [exact H|].
  apply (proj2 (cycle_succeeds_iff
                  (Worlds.answers 200 (inr "{}") Worlds.quarter) Worlds.spring)).
  exact H.
Defined.

(** X9: each error that a cycle returns has one cause: the URI that
    does not parse, the error of [client.Do], the error of reading the
    body, a status other than 200 on a body that was read, a body that
    does not parse on status 200.  But for the first, the error is
    returned only by an exporter whose two descriptors have valid
    names: another one panics before. *)
Theorem cycle_error_causes (w : World) (e : Exporter) :
  (forall msg, returned w e = Some (UrlError msg)
               <-> parseURL w (URI e) = Some msg)
  /\ (forall msg, returned w e = Some (ScrapeError msg)
                  <-> validMeta e = true
                      /\ parseURL w (URI e) = None
                      /\ roundTrip w (client e) (request e) = inl msg)
  /\ (forall msg, returned w e = Some (ReadError msg)
                  <-> validMeta e = true
                      /\ exists resp, received w e = Some resp
                                      /\ http.Body resp = inl msg)
  /\ (forall code, returned w e = Some (StatusError code)
                   <-> validMeta e = true
                       /\ exists resp body,
                            received w e = Some resp
                            /\ http.Body resp = inr body
                            /\ http.StatusCode resp = code
                            /\ code <> 200)
  /\ (returned w e = Some UnmarshalError
      <-> validMeta e = true
          /\ exists resp body,
               received w e = Some resp
               /\ http.Body resp = inr body
               /\ http.StatusCode resp = 200
               /\ json.Unmarshal body = None).
Proof.
  by_cases_of_cycle w e; (split; [|split; [|split; [|split]]]); intros;
    (split; intros H);
    try discriminate H;
    try (unfold payloadResult in H;
         destruct (payloadPanic e (rangeOrder w data)); discriminate H);
    try (injection H as <-; eauto 10; fail);
    try (split; [reflexivity | eauto 10]; fail);
    repeat match goal with
           | H : _ /\ _ |- _ => destruct H
           | H : exists _, _ |- _ => destruct H
           | H : Some _ = Some _ |- _ => injection H as <-
           end;
    congruence.
Qed.

Lemma cycle_error_causes_witness :
  (validMeta Worlds.spring = true
   /\ exists resp body,
        received (Worlds.answers 200 (inr "not json") Worlds.quarter) Worlds.spring
        = Some resp
        /\ http.Body resp = inr body
        /\ http.StatusCode resp = 200
        /\ json.Unmarshal body = None)
  /\ returned (Worlds.answers 200 (inr "not json") Worlds.quarter) Worlds.spring
     = Some UnmarshalError.
Proof.
  assert (H : validMeta Worlds.spring = true
   /\ exists resp body,
        received (Worlds.answers 200 (inr "not json") Worlds.quarter) Worlds.spring
        = Some resp
        /\ http.Body resp = inr body
        /\ http.StatusCode resp = 200
        /\ json.Unmarshal body = None).
  { split; [reflexivity|].
    exists {| http.StatusCode := 200; http.Body := inr "not json" |}, "not json".
    repeat split; reflexivity. }
  split; [exact H|].
  apply (proj2 (proj2 (proj2 (proj2 (proj2 (cycle_error_causes
           (Worlds.answers 200 (inr "not json") Worlds.quarter) Worlds.spring)))))).
  exact H.
Defined.

Module DebugMore.

Lemma no_rows_in_payload e entries n : ~ In (DebugRows n) (payloadEvents e entries).
Proof.
  induction entries as [|entry rest IH]; [intros []|].
  cbn [payloadEvents]. intros [H|H]; [discriminate|].
  destruct (payloadMetric e entry); [destruct H|].
  destruct H as [H|H]; [discriminate | apply IH, H].
Qed.

Lemma length_sent tr : length (sent tr) = Trace.count Trace.isSend tr.
Proof.
  induction tr as [|ev tr IH]; [reflexivity|].
  unfold sent, Trace.count in *. destruct ev; cbn; rewrite ?IH; reflexivity.
Qed.

End DebugMore.

(** X10: the number of rows that the cycle logs is the size of the
    parsed map, and it is logged once the body has parsed, by an
    exporter whose two descriptors have valid names.  The cycle then
    sends the two meta-measurements and one payload measurement for
    each entry that it gets through: as many as rows when it comes to
    its end, fewer when it panics on a key. *)
Theorem rows_logged_are_rows_sent (w : World) (e : Exporter) :
  (forall n, In (DebugRows n) (fst (collect w e))
     <-> validMeta e = true
         /\ exists resp body data,
              received w e = Some resp
              /\ http.Body resp = inr body
              /\ http.StatusCode resp = 200
              /\ json.Unmarshal body = Some data
              /\ n = size data)
  /\ forall n, In (DebugRows n) (fst (collect w e)) ->
       Trace.count Trace.isSend (fst (collect w e)) = length (emitted w e)
       /\ (2 <= length (emitted w e) <= 2 + n)%nat
       /\ (snd (collect w e) = Done tt ->
           length (emitted w e) = (2 + n)%nat
           /\ Trace.count Trace.isDebugKey (fst (collect w e)) = n)
       /\ (panicked w e <> None ->
           (length (emitted w e) < 2 + n)%nat
           /\ Trace.count Trace.isDebugKey (fst (collect w e))
              = (length (emitted w e) - 1)%nat).
Proof.
  assert (Hsplit : forall d u (data : jsonData) n,
            In (DebugRows n)
               ([Do (request e); Send d; Send u; ReadAll; DebugRows (size data)]
                  ++ payloadEvents e (rangeOrder w data) ++ [Close]) ->
            n = size data).
  { intros d u data n. rewrite !in_app_iff. intros [H|[H|H]].
    - cbn in H. destruct H as [H|[H|[H|[H|[H|[]]]]]]; try discriminate.
      injection H as <-. reflexivity.
    - destruct (DebugMore.no_rows_in_payload _ _ _ H).
    - cbn in H. intuition discriminate. }
  split.
  - intros n.
    by_cases_of_cycle w e; (split; intros H);
      try (cbn in H; intuition discriminate);
      try (destruct H as [H _]; discriminate H);
      try (destruct H as (_ & r' & b' & d' & Hr & Hb & Hc & Hj & Hn);
           try discriminate; injection Hr as <-; congruence).
    + apply Hsplit in H. split; [reflexivity|]. eauto 10.
    + destruct H as (_ & r' & b' & d' & Hr & Hb & Hc & Hj & Hn).
      injection Hr as <-. rewrite Hbody in Hb. injection Hb as <-.
      rewrite Hjson in Hj. injection Hj as <-. subst n. cbn. auto 10.
  - intros n. rewrite <- DebugMore.length_sent.
    by_cases_of_cycle w e; intros Hn;
      try (cbn in Hn; intuition discriminate).
    apply Hsplit in Hn. subst n.
    rewrite DebugMore.length_sent. fold (emitted w e).
    count_events.
    pose proof (CycleMore.length_served e (rangeOrder w data)) as (L1 & L2 & L3).
    rewrite (CycleMore.length_rangeOrder w data) in L1, L2, L3.
    unfold Trace.count. cbn [List.filter Trace.isSend Trace.isDebugKey length].
    unfold payloadResult.
    destruct (payloadPanic e (rangeOrder w data)) as [p|];
      [specialize (L3 ltac:(discriminate)) | specialize (L2 eq_refl)];
      repeat split; intros; try congruence; try lia.
Qed.

Lemma rows_logged_are_rows_sent_witness :
  In (DebugRows 1)
     (fst (collect (Worlds.answers 200 (inr Worlds.emptyKeyBody) Worlds.quarter)
                   Worlds.spring))
  /\ panicked (Worlds.answers 200 (inr Worlds.emptyKeyBody) Worlds.quarter)
              Worlds.spring <> None
  /\ (length (emitted (Worlds.answers 200 (inr Worlds.emptyKeyBody) Worlds.quarter)
                      Worlds.spring) < 2 + 1)%nat.
Proof.
  assert (H : In (DebugRows 1)
     (fst (collect (Worlds.answers 200 (inr Worlds.emptyKeyBody) Worlds.quarter)
                   Worlds.spring))).
  { vm_compute. auto 10. }
  assert (Hp : panicked (Worlds.answers 200 (inr Worlds.emptyKeyBody) Worlds.quarter)
                        Worlds.spring <> None).
  { vm_compute. discriminate. }
  split; [exact H|]. split; [exact Hp|].
  apply (proj1 (proj2 (proj2 (proj2
           (proj2 (rows_logged_are_rows_sent
                     (Worlds.answers 200 (inr Worlds.emptyKeyBody) Worlds.quarter)
                     Worlds.spring) 1%nat H))) Hp)).
Defined.

Module KindsMore.
Import prometheus.

Section Built.
Variables (ns : string) (insecure : bool) (uri user pw : string).
Let e := NewExporter ns insecure uri user pw.

Lemma payload_not_described key : ~ In (payloadDesc e key) (Describe e).
Proof.
  intros [H|[H|[]]]; symmetry in H; revert H.
  - apply CollectFacts.payload_ne_up.
  - apply CollectFacts.payload_ne_duration.
Qed.

(** The descriptor of a payload measurement determines the raw key. *)
Lemma payload_desc_inj key1 key2 :
  payloadDesc e key1 = payloadDesc e key2 -> key1 = key2.
Proof. intros H. injection H as _ H. exact H. Qed.

Lemma NoDup_payload_descs (entries : list (string * float64)) :
  NoDup (map fst entries) ->
  NoDup (map (fun entry => payloadDesc e (fst entry)) entries).
Proof.
  induction entries as [|entry rest IH]; cbn [map]; intros Hnd.
  - constructor.
  - apply NoDup_cons in Hnd. destruct Hnd as [Hnotin Hnd].
    apply NoDup_cons. split; [|apply IH, Hnd].
    intros Hin. apply Hnotin.
    apply list_elem_of_In, in_map_iff in Hin.
    destruct Hin as [entry' [Heq Hin']].
    apply payload_desc_inj in Heq. rewrite <- Heq.
    apply list_elem_of_In, in_map. exact Hin'.
Qed.

(** What the loop sends has the descriptors of entries of the map, and
    is untyped. *)
Lemma payload_sent entries m :
  In m (sent (payloadEvents e entries)) ->
  exists entry, In entry entries /\ payloadMetric e entry = inr m.
Proof.
  induction entries as [|entry rest IH]; [intros []|].
  rewrite CollectFacts.sent_payloadEvents_cons.
  destruct (payloadMetric e entry) as [p|m'] eqn:E; [intros []|].
  intros [<-|Hin].
  - exists entry. split; [left; reflexivity | exact E].
  - destruct (IH Hin) as [entry' [H1 H2]]. exists entry'. split; [right|]; auto.
Qed.

End Built.

End KindsMore.

(** X11: [Describe] gives the two descriptors of the meta-measurements,
    which are different, and nothing else.  Every measurement that a
    cycle sends is either a gauge with one of these descriptors or an
    untyped measurement with a descriptor that [Describe] does not
    give: the payload measurements are never described. *)
Theorem described_or_untyped
    (ns : string) (insecure : bool) (uri user pw : string) (w : World) :
  let e := NewExporter ns insecure uri user pw in
  NoDup (Describe e)
  /\ length (Describe e) = 2%nat
  /\ Forall (fun m =>
               (In (desc m) (Describe e) /\ valType m = GaugeValue)
               \/ (~ In (desc m) (Describe e) /\ valType m = UntypedValue))
            (emitted w e).
Proof.
  intros e. split; [|split; [reflexivity|]].
  - unfold Describe. apply NoDup_cons. split; [|apply NoDup_singleton].
    intros H. apply list_elem_of_singleton in H. revert H.
    apply CollectFacts.up_ne_duration.
  - rewrite CollectFacts.emitted_cases.
    set (P := fun m => (In (desc m) (Describe e) /\ valType m = GaugeValue)
                       \/ (~ In (desc m) (Describe e) /\ valType m = UntypedValue)).
    assert (Hdur : forall secs d, durationMetric e secs = inr d -> P d).
    { intros secs d H. apply CollectFacts.MustNewConstMetric_inr in H.
      destruct H as [-> _]. left. cbn. auto. }
    assert (Hup : forall v u, upMetric e v = inr u -> P u).
    { intros v u H. apply CollectFacts.MustNewConstMetric_inr in H.
      destruct H as [-> _]. left. cbn. auto. }
    destruct (parseURL w (URI e)); [constructor|].
    destruct (durationMetric e (elapsed w)) as [p|d] eqn:Hd; [constructor|].
    apply Forall_cons. split; [apply (Hdur _ _ Hd)|].
    destruct (roundTrip w (client e) (request e)) as [err|resp].
    { destruct (upMetric e 0) as [p|u] eqn:Hu; [constructor|].
      apply Forall_cons. split; [apply (Hup _ _ Hu) | constructor]. }
    destruct (upMetric e 1) as [p|u] eqn:Hu; [constructor|].
    apply Forall_cons. split; [apply (Hup _ _ Hu)|].
    destruct (http.Body resp) as [msg|body]; [constructor|].
    destruct (http.StatusCode resp =? 200); [|constructor].
    destruct (json.Unmarshal body) as [data|]; [|constructor].
    apply Forall_forall. intros m Hm. apply list_elem_of_In in Hm.
    apply KindsMore.payload_sent in Hm. destruct Hm as [entry [_ Hm]].
    right. apply CollectFacts.MustNewConstMetric_inr in Hm.
    destruct Hm as [-> _]. cbn [desc valType].
    split; [apply KindsMore.payload_not_described | reflexivity].
Qed.

(** X12: no two measurements of one cycle have the same descriptor, even
    when two of them have the same name. *)
Theorem descriptors_are_distinct
    (ns : string) (insecure : bool) (uri user pw : string) (w : World) :
  NoDup (map desc (emitted w (NewExporter ns insecure uri user pw))).
Proof.
  set (e := NewExporter ns insecure uri user pw).
  rewrite CollectFacts.emitted_cases.
  assert (Hne : duration e <> up e).
  { intros Heq. symmetry in Heq. revert Heq. apply CollectFacts.up_ne_duration. }
  destruct (parseURL w (URI e)); [constructor|].
  destruct (durationMetric e (elapsed w)) as [p|d] eqn:Hd; [constructor|].
  apply CollectFacts.MustNewConstMetric_inr in Hd. destruct Hd as [-> _].
  assert (Hmeta : forall v u, upMetric e v = inr u ->
            NoDup (map desc [{| desc := duration e; valType := GaugeValue;
                                val := elapsed w |}; u])).
  { intros v u Hu. apply CollectFacts.MustNewConstMetric_inr in Hu.
    destruct Hu as [-> _]. cbn [map desc].
    apply NoDup_cons. split; [|apply NoDup_singleton].
    intros Hin. apply list_elem_of_singleton in Hin. exact (Hne Hin). }
  destruct (roundTrip w (client e) (request e)) as [err|resp].
  { destruct (upMetric e 0) as [p|u] eqn:Hu; [apply NoDup_singleton|].
    apply (Hmeta _ _ Hu). }
  destruct (upMetric e 1) as [p|u] eqn:Hu; [apply NoDup_singleton|].
  destruct (http.Body resp) as [msg|body]; [apply (Hmeta _ _ Hu)|].
  destruct (http.StatusCode resp =? 200); [|apply (Hmeta _ _ Hu)].
  destruct (json.Unmarshal body) as [data|]; [|apply (Hmeta _ _ Hu)].
  apply CollectFacts.MustNewConstMetric_inr in Hu. destruct Hu as [-> _].
  cbn [map desc]. rewrite CollectFacts.descs_payloadEvents.
  assert (Hpay : NoDup (map (fun entry => payloadDesc e (fst entry))
                            (served e (rangeOrder w data)))).
  { apply KindsMore.NoDup_payload_descs.
    apply (sublist_NoDup _ (map fst (rangeOrder w data))).
    - rewrite (rangeOrder_perm w data). apply NoDup_fst_map_to_list.
    - apply (fmap_sublist fst), CollectFacts.served_sublist. }
  assert (Hnot : forall d, In d (Describe e) ->
            d ∉ map (fun entry => payloadDesc e (fst entry))
                    (served e (rangeOrder w data))).
  { intros d Hd Hin. apply list_elem_of_In, in_map_iff in Hin.
    destruct Hin as [entry [<- _]].
    exact (KindsMore.payload_not_described ns insecure uri user pw _ Hd). }
  apply NoDup_cons. split.
  - intros Hin. apply elem_of_cons in Hin. destruct Hin as [Hin|Hin].
    + exact (Hne Hin).
    + revert Hin. apply Hnot. right. left. reflexivity.
  - apply NoDup_cons. split; [|exact Hpay].
    apply Hnot. left. reflexivity.
Qed.

(** X13: when the cycle in one world does not panic, the order in which
    the map is gone through changes nothing but the order of the payload
    measurements: in two worlds that differ in that order only, a cycle
    ends the same way, begins with the same two meta-measurements and
    sends the same measurements, in some order. *)
Theorem range_order_does_not_matter (w1 w2 : World) (e : Exporter) :
  (forall url, parseURL w1 url = parseURL w2 url) ->
  (forall c req, roundTrip w1 c req = roundTrip w2 c req) ->
  elapsed w1 = elapsed w2 ->
  panicked w1 e = None ->
  snd (collect w1 e) = snd (collect w2 e)
  /\ returned w1 e = returned w2 e
  /\ take 2 (emitted w1 e) = take 2 (emitted w2 e)
  /\ emitted w1 e ≡ₚ emitted w2 e.
Proof.
  intros Hp Hr He. unfold panicked, returned.
  rewrite !CollectFacts.emitted_cases, !CollectFacts.result_cases.
  rewrite <- Hp, <- Hr, <- He.
  destruct (parseURL w1 (URI e)); [auto|].
  destruct (durationMetric e (elapsed w1)) as [p|d]; [auto|].
  destruct (roundTrip w1 (client e) (request e)) as [err|resp].
  { destruct (upMetric e 0); auto. }
  destruct (upMetric e 1) as [p|u]; [auto|].
  destruct (http.Body resp) as [msg|body]; [auto|].
  destruct (http.StatusCode resp =? 200); [|auto].
  destruct (json.Unmarshal body) as [data|]; [|auto].
  unfold payloadResult.
  destruct (payloadPanic e (rangeOrder w1 data)) as [p|] eqn:H1; [discriminate|].
  intros _.
  assert (H2 : payloadPanic e (rangeOrder w2 data) = None).
  { apply CycleMore.payloadPanic_rangeOrder.
    apply (CycleMore.payloadPanic_rangeOrder w1). exact H1. }
  rewrite H2.
  split; [reflexivity|]. split; [reflexivity|]. split; [reflexivity|].
  do 2 (apply Permutation_cons; [reflexivity|]).
  rewrite !CycleMore.sent_payloadEvents_all by assumption.
  apply Permutation_map.
  rewrite (rangeOrder_perm w1 data), (rangeOrder_perm w2 data). reflexivity.
Qed.

Lemma range_order_does_not_matter_witness :
  (forall url,
     parseURL (Worlds.answers 200 (inr Worlds.jvmBody) Worlds.quarter) url
     = parseURL (MoreWorlds.backwards
                   (Worlds.answers 200 (inr Worlds.jvmBody) Worlds.quarter)) url)
  /\ panicked (Worlds.answers 200 (inr Worlds.jvmBody) Worlds.quarter)
              Worlds.spring = None
  /\ emitted (Worlds.answers 200 (inr Worlds.jvmBody) Worlds.quarter) Worlds.spring
     ≡ₚ emitted (MoreWorlds.backwards
                   (Worlds.answers 200 (inr Worlds.jvmBody) Worlds.quarter))
                Worlds.spring.
Proof.
  split; [reflexivity|]. split; [reflexivity|].
  apply (range_order_does_not_matter
           (Worlds.answers 200 (inr Worlds.jvmBody) Worlds.quarter)
           (MoreWorlds.backwards
              (Worlds.answers 200 (inr Worlds.jvmBody) Worlds.quarter))
           Worlds.spring);
    reflexivity.
Defined.

(** X14: the descriptors that the loop builds for two raw keys have the
    same fully-qualified name exactly when the raw keys sanitize to the
    same string, and are the same descriptor exactly when the raw keys
    are the same; so it is with the payload measurements of two
    entries, where they can be built. *)
Theorem same_name_iff_same_sanitized_key
    (e : Exporter) (key1 key2 : string) (v1 v2 : float64) :
  (prometheus.fqName (payloadDesc e key1) = prometheus.fqName (payloadDesc e key2)
   <-> keyToSnake key1 = keyToSnake key2)
  /\ (payloadDesc e key1 = payloadDesc e key2 <-> key1 = key2)
  /\ forall m1 m2 : prometheus.Metric,
       payloadMetric e (key1, v1) = inr m1 ->
       payloadMetric e (key2, v2) = inr m2 ->
       (prometheus.fqName (prometheus.desc m1)
        = prometheus.fqName (prometheus.desc m2)
        <-> keyToSnake key1 = keyToSnake key2)
       /\ (prometheus.desc m1 = prometheus.desc m2 <-> key1 = key2).
Proof.
  assert (Hname : prometheus.fqName (payloadDesc e key1)
                  = prometheus.fqName (payloadDesc e key2)
                  <-> keyToSnake key1 = keyToSnake key2).
  { unfold payloadDesc, prometheus.NewDesc. cbn [prometheus.fqName]. split.
    - apply CollectFacts.BuildFQName_inj.
    - intros H. rewrite H. reflexivity. }
  assert (Hdesc : payloadDesc e key1 = payloadDesc e key2 <-> key1 = key2).
  { split.
    - intros H. injection H as _ H. exact H.
    - intros H. rewrite H. reflexivity. }
  split; [exact Hname|]. split; [exact Hdesc|].
  intros m1 m2 H1 H2.
  apply CollectFacts.payloadMetric_desc in H1, H2. cbn [fst] in H1, H2.
  rewrite H1, H2. split; assumption.
Qed.

Lemma same_name_iff_same_sanitized_key_witness :
  keyToSnake "a.b" = keyToSnake "a b"
  /\ prometheus.fqName (payloadDesc Worlds.spring "a.b")
     = prometheus.fqName (payloadDesc Worlds.spring "a b").
Proof.
  split; [reflexivity|].
  apply (proj2 (proj1 (same_name_iff_same_sanitized_key
                         Worlds.spring "a.b" "a b" float64.zero float64.zero))).
  reflexivity.
Defined.

Module NameMore.

Lemma append_nil_inv (a b : string) : a +:+ b = "" -> a = "" /\ b = "".
Proof. destruct a; [auto | discriminate]. Qed.

Lemma BuildFQName_empty ns name :
  prometheus.BuildFQName ns "" name = "" <-> name = "".
Proof.
  unfold prometheus.BuildFQName, prometheus.join2.
  destruct name as [|c name]; [split; reflexivity|].
  destruct ns as [|cn ns]; cbn; split; discriminate.
Qed.

End NameMore.

(** X15: the name that the loop builds for a raw key is empty exactly
    for the empty raw key, whatever the namespace: the namespace is not
    put before an empty name.  No measurement is built for the empty
    key: [MustNewConstMetric] panics on the empty name. *)
Theorem empty_key_gives_empty_name (e : Exporter) (key : string) (v : float64) :
  (prometheus.fqName (payloadDesc e key) = "" <-> key = "")
  /\ payloadMetric e ("", v) = inl (prometheus.InvalidMetricName "")
  /\ forall m, payloadMetric e (key, v) = inr m -> key <> "".
Proof.
  split; [|split].
  - unfold payloadDesc, prometheus.NewDesc. cbn [prometheus.fqName].
    rewrite NameMore.BuildFQName_empty.
    split; [apply NameFacts.keyToSnake_nil | intros ->; reflexivity].
  - reflexivity.
  - intros m H ->. discriminate H.
Qed.

Lemma empty_key_gives_empty_name_witness :
  "" = ""
  /\ prometheus.fqName (payloadDesc Worlds.spring "") = "".
Proof.
  split; [reflexivity|].
  apply (proj2 (proj1 (empty_key_gives_empty_name Worlds.spring ""
                         (float64.ofZ 1)))).
  reflexivity.
Defined.

(** X18: once a response is received by an exporter whose two
    descriptors have valid names, the cycle has made the request, sent
    the duration and [up] of value 1, and only then reads the body: what
    it reports of the endpoint being up does not depend on the body.
    In every other cycle the body is not read. *)
Theorem up_is_sent_before_the_body_is_read (w : World) (e : Exporter) :
  match (if validMeta e then received w e else None) with
  | Some _ =>
    exists d u : prometheus.Metric,
      durationMetric e (elapsed w) = inr d
      /\ upMetric e 1 = inr u
      /\ take 4 (fst (collect w e)) = [Do (request e); Send d; Send u; ReadAll]
  | None => ~ In ReadAll (fst (collect w e))
  end.
Proof.
  by_cases_of_cycle w e;
    try (cbn; intuition discriminate);
    eexists _, _; repeat split.
Qed.

(** X19: for every payload that parsed and whose keys all give valid
    metric names, exactly one payload measurement is sent for each raw
    key of the map, with the raw key as its help text and the entry's
    value, and the cycle comes to its end; nothing is merged when two
    raw keys sanitize to one name, and then two of the measurements sent
    have the same fully-qualified name and differ in their help text
    only. *)
Theorem one_measurement_per_valid_key :
  (forall (ns : string) (insecure : bool) (uri user pw : string) (w : World)
          (resp : http.Response) (body : string) (data : jsonData),
     let e := NewExporter ns insecure uri user pw in
     validNamespace ns = true ->
     received w e = Some resp ->
     http.StatusCode resp = 200 ->
     http.Body resp = inr body ->
     json.Unmarshal body = Some data ->
     map_Forall (fun key _ => validKey e key = true) data ->
     built (List.filter (isPayload e) (emitted w e))
       ≡ₚ map (payloadMetric e) (map_to_list data)
     /\ length (List.filter (isPayload e) (emitted w e)) = size data
     /\ map (fun m => (help (desc m), val m))
            (List.filter (isPayload e) (emitted w e))
        ≡ₚ map_to_list data
     /\ snd (collect w e) = Done tt)
  /\ exists (m1 m2 : Metric),
       List.filter (isPayload Worlds.spring)
         (emitted (Worlds.answers 200 (inr Worlds.collidingBody) Worlds.quarter)
                  Worlds.spring) = [m1; m2]
       /\ fqName (desc m1) = fqName (desc m2)
       /\ valType m1 = valType m2
       /\ val m1 = val m2
       /\ help (desc m1) <> help (desc m2).
Proof.
  split.
  - intros ns insecure uri user pw w resp body data e Hns. subst e.
    valid_cycle ns insecure uri user pw w Hns.
    set (e := NewExporter ns insecure uri user pw) in *.
    rewrite Hd, Hu1.
    destruct (parseURL w uri) as [msg|]; [discriminate|].
    destruct (roundTrip w (client e) (request e)) as [err|resp']; [discriminate|].
    intros Hr Hcode Hbody Hjson Hkeys. injection Hr as ->.
    rewrite Hbody, Hcode, Hjson. cbn [Z.eqb Pos.eqb].
    cbn [List.filter]. rewrite Hdp, H1p.
    pose proof (CollectFacts.filter_isPayload_payload ns insecure uri user pw
                  (rangeOrder w data)) as Hf.
    fold e in Hf. rewrite !Hf.
    assert (Hpanic : payloadPanic e (rangeOrder w data) = None)
      by (apply CycleMore.payloadPanic_rangeOrder, Hkeys).
    pose proof (rangeOrder_perm w data) as Hperm.
    repeat split.
    + rewrite CollectFacts.sent_payloadEvents, CollectFacts.served_all by exact Hpanic.
      rewrite Hperm. reflexivity.
    + rewrite CycleMore.sent_payloadEvents_all by exact Hpanic.
      rewrite length_map, Hperm. apply length_map_to_list.
    + rewrite CycleMore.sent_payloadEvents_all by exact Hpanic.
      rewrite map_map. cbn [desc help val].
      rewrite (map_ext _ (fun x => x)) by (intros []; reflexivity).
      rewrite map_id. exact Hperm.
    + unfold payloadResult. rewrite Hpanic. reflexivity.
  - eexists _, _. split; [vm_compute; reflexivity|].
    repeat split; discriminate.
Qed.

Lemma one_measurement_per_valid_key_witness :
  validNamespace "spring" = true
  /\ received (Worlds.answers 200 (inr Worlds.collidingBody) Worlds.quarter)
              Worlds.spring
     = Some {| http.StatusCode := 200; http.Body := inr Worlds.collidingBody |}
  /\ json.Unmarshal Worlds.collidingBody
     = Some (<["a.b" := float64.ofZ 1]> (<["a_b" := float64.ofZ 1]> ∅))
  /\ map_Forall (fun key _ => validKey Worlds.spring key = true)
       (<["a.b" := float64.ofZ 1]> (<["a_b" := float64.ofZ 1]> ∅) : jsonData)
  /\ length (List.filter (isPayload Worlds.spring)
               (emitted (Worlds.answers 200 (inr Worlds.collidingBody)
                                        Worlds.quarter) Worlds.spring))
     = size (<["a.b" := float64.ofZ 1]> (<["a_b" := float64.ofZ 1]> ∅) : jsonData).
Proof.
  assert (Hkeys : map_Forall (fun key _ => validKey Worlds.spring key = true)
       (<["a.b" := float64.ofZ 1]> (<["a_b" := float64.ofZ 1]> ∅) : jsonData)).
  { apply map_Forall_insert_2; [reflexivity|].
    apply map_Forall_insert_2; [reflexivity|]. apply map_Forall_empty. }
  split; [reflexivity|]. split; [reflexivity|].
  split; [vm_compute; reflexivity|]. split; [exact Hkeys|].
  apply (proj1 one_measurement_per_valid_key "spring" false
           "http://localhost:8080/metrics" "" ""
           (Worlds.answers 200 (inr Worlds.collidingBody) Worlds.quarter)
           {| http.StatusCode := 200; http.Body := inr Worlds.collidingBody |}
           Worlds.collidingBody
           (<["a.b" := float64.ofZ 1]> (<["a_b" := float64.ofZ 1]> ∅))
           eq_refl eq_refl eq_refl eq_refl).
  - vm_compute. reflexivity.
  - exact Hkeys.
Defined.

(** X20: the namespace decides whether the two descriptors that
    [NewExporter] builds have valid names: they have when the namespace
    is empty or is a valid metric name itself, and with another
    namespace [MustNewConstMetric] panics on the duration.  A raw key
    gives a valid name only if it is not empty and the namespace is
    valid; after a valid namespace that is not empty, every raw key but
    the empty one gives a valid name. *)
Theorem names_by_namespace
    (ns : string) (insecure : bool) (uri user pw : string) :
  let e := NewExporter ns insecure uri user pw in
  validMeta e = validNamespace ns
  /\ (validNamespace ns = false ->
      forall secs, durationMetric e secs
                   = inl (InvalidMetricName (fqName (duration e))))
  /\ (forall key, validKey e key = true ->
        key <> "" /\ validNamespace ns = true)
  /\ (ns <> "" -> validNamespace ns = true ->
      forall key, key <> "" -> validKey e key = true).
Proof.
  intros e. split; [apply NameFacts.validMeta_NewExporter|].
  split; [intros Hns secs; apply CollectFacts.durationMetric_invalid, Hns|].
  split.
  - intros key Hkey.
    assert (Hk : key <> "") by (intros ->; discriminate Hkey).
    split; [exact Hk|].
    destruct (String.eqb_spec ns "") as [->|Hne]; [reflexivity|].
    unfold e in Hkey.
    rewrite NameFacts.validKey_after_namespace in Hkey by assumption.
    unfold validNamespace. rewrite Hkey. apply orb_true_r.
  - intros Hne Hns key Hk. unfold e.
    rewrite NameFacts.validKey_after_namespace by assumption.
    unfold validNamespace in Hns.
    destruct (String.eqb_spec ns ""); [contradiction | exact Hns].
Qed.

Lemma names_by_namespace_witness :
  validNamespace "my-app" = false
  /\ durationMetric Worlds.myApp Worlds.quarter
     = inl (InvalidMetricName "my-app_response_duration").
Proof.
  split; [reflexivity|].
  apply (proj1 (proj2 (names_by_namespace "my-app" false
                         "http://localhost:8080/metrics" "" "")) eq_refl).
Defined.

(** X21: a cycle panics exactly when the request was built and either
    the namespace of the exporter gives no valid name, or the body of a
    response of status 200 parsed and one of its keys gives no valid
    name.  Then [Collect] logs no error and still unlocks the mutex. *)
Theorem cycle_panics_iff
    (ns : string) (insecure : bool) (uri user pw : string) (w : World) :
  let e := NewExporter ns insecure uri user pw in
  (panicked w e <> None
   <-> parseURL w uri = None
       /\ (validNamespace ns = false
           \/ exists resp body data,
                received w e = Some resp
                /\ http.Body resp = inr body
                /\ http.StatusCode resp = 200
                /\ json.Unmarshal body = Some data
                /\ ~ map_Forall (fun key _ => validKey e key = true) data))
  /\ (panicked w e <> None ->
      returned w e = None
      /\ Trace.count Trace.isErrorf (Collect w e) = 0%nat
      /\ last (Collect w e) = Some Unlock).
Proof.
  intros e. split.
  - destruct (validNamespace ns) eqn:Hns.
    + subst e. valid_cycle ns insecure uri user pw w Hns.
      set (e := NewExporter ns insecure uri user pw) in *.
      rewrite Hd, Hu0, Hu1.
      destruct (parseURL w uri) as [msg|];
        [split; [congruence | intros [? _]; discriminate]|].
      destruct (roundTrip w (client e) (request e)) as [err|resp].
      { split; [congruence|].
        intros [_ [?|(r' & b' & d' & Hr & _)]]; discriminate. }
      destruct (http.Body resp) as [msg|body] eqn:Hbody.
      { split; [congruence|].
        intros [_ [?|(r' & b' & d' & Hr & Hb & _)]]; [discriminate|].
        injection Hr as <-. congruence. }
      destruct (Z.eqb_spec (http.StatusCode resp) 200) as [Hcode|Hcode].
      2:{ split; [congruence|].
          intros [_ [?|(r' & b' & d' & Hr & Hb & Hc & _)]]; [discriminate|].
          injection Hr as <-. congruence. }
      destruct (json.Unmarshal body) as [data|] eqn:Hjson.
      2:{ split; [congruence|].
          intros [_ [?|(r' & b' & d' & Hr & Hb & Hc & Hj & _)]]; [discriminate|].
          injection Hr as <-. congruence. }
      unfold payloadResult.
      pose proof (CycleMore.payloadPanic_rangeOrder w e data) as Hiff.
      destruct (payloadPanic e (rangeOrder w data)) as [p|].
      * split; [|discriminate]. intros _. split; [reflexivity|]. right.
        exists resp, body, data. repeat split; auto.
        intros Hall. apply Hiff in Hall. discriminate.
      * split; [congruence|].
        intros [_ [?|(r' & b' & d' & Hr & Hb & Hc & Hj & Hk)]]; [discriminate|].
        injection Hr as <-. rewrite Hbody in Hb. injection Hb as <-.
        rewrite Hjson in Hj. injection Hj as <-.
        destruct Hk. apply Hiff. reflexivity.
    + unfold panicked. rewrite CollectFacts.result_cases.
      unfold e. rewrite (CollectFacts.durationMetric_invalid _ _ _ _ _ _ Hns).
      cbn [URI NewExporter].
      destruct (parseURL w uri).
      * split; [congruence | intros [? _]; discriminate].
      * split; [auto | discriminate].
  - intros Hp.
    pose proof (CollectShape.Collect_guarded w e) as Hg.
    unfold Collect, returned, panicked in *.
    destruct (collect w e) as [tr r] eqn:Hc. cbn [fst snd] in *.
    destruct r as [x|err'|p]; try congruence.
    split; [reflexivity|]. split.
    + rewrite !CycleMore.count_app.
      pose proof (ErrorfMore.collect_logs_no_error w e) as Hno.
      rewrite Hc in Hno. cbn [fst] in Hno.
      rewrite (ErrorfMore.count_no_errorf tr Hno). reflexivity.
    + rewrite !app_assoc. apply last_snoc.
Qed.

Lemma cycle_panics_iff_witness :
  (parseURL (Worlds.answers 200 (inr "{}") Worlds.quarter)
            "http://localhost:8080/metrics" = None
   /\ (validNamespace "my-app" = false
       \/ exists resp body data,
            received (Worlds.answers 200 (inr "{}") Worlds.quarter) Worlds.myApp
            = Some resp
            /\ http.Body resp = inr body
            /\ http.StatusCode resp = 200
            /\ json.Unmarshal body = Some data
            /\ ~ map_Forall (fun key _ => validKey Worlds.myApp key = true) data))
  /\ panicked (Worlds.answers 200 (inr "{}") Worlds.quarter) Worlds.myApp <> None.
Proof.
  assert (H : parseURL (Worlds.answers 200 (inr "{}") Worlds.quarter)
            "http://localhost:8080/metrics" = None
   /\ (validNamespace "my-app" = false
       \/ exists resp body data,
            received (Worlds.answers 200 (inr "{}") Worlds.quarter) Worlds.myApp
            = Some resp
            /\ http.Body resp = inr body
            /\ http.StatusCode resp = 200
            /\ json.Unmarshal body = Some data
            /\ ~ map_Forall (fun key _ => validKey Worlds.myApp key = true) data)).
  { split; [reflexivity|]. left. reflexivity. }
  split; [exact H|].
  apply (proj2 (proj1 (cycle_panics_iff "my-app" false
                         "http://localhost:8080/metrics" "" ""
                         (Worlds.answers 200 (inr "{}") Worlds.quarter)))).
  exact H.
Defined.

(** X22: when a key of the payload gives no valid name, the order in
    which the map is gone through decides what is sent before the
    panic: with the empty key and the key [a], the measurement of [a]
    is sent in one order and not in the other. *)
Theorem range_order_matters_on_a_panic :
  json.Unmarshal Worlds.mixedBody
  = Some (<["" := float64.ofZ 1]> (<["a" := float64.ofZ 2]> ∅))
  /\ panicked (Worlds.answers 200 (inr Worlds.mixedBody) Worlds.quarter)
              Worlds.spring
     = Some (InvalidMetricName "")
  /\ panicked (MoreWorlds.backwards
                 (Worlds.answers 200 (inr Worlds.mixedBody) Worlds.quarter))
              Worlds.spring
     = Some (InvalidMetricName "")
  /\ map (fun m => fqName (desc m))
         (emitted (Worlds.answers 200 (inr Worlds.mixedBody) Worlds.quarter)
                  Worlds.spring)
     = ["spring_response_duration"; "spring_up"; "spring_a"]
  /\ map (fun m => fqName (desc m))
         (emitted (MoreWorlds.backwards
                     (Worlds.answers 200 (inr Worlds.mixedBody) Worlds.quarter))
                  Worlds.spring)
     = ["spring_response_duration"; "spring_up"]
  /\ ~ (emitted (Worlds.answers 200 (inr Worlds.mixedBody) Worlds.quarter)
                Worlds.spring
        ≡ₚ emitted (MoreWorlds.backwards
                      (Worlds.answers 200 (inr Worlds.mixedBody) Worlds.quarter))
                   Worlds.spring).
Proof.
  repeat split; try (vm_compute; reflexivity).
  intros H. apply Permutation_length in H. vm_compute in H. discriminate.
Qed.

(** ** More on the exclusivity guard *)

Module ExclusionMore.
Import Concurrent ConcurrentFacts Trace.

Lemma did_app c p tr1 tr2 : did c p (tr1 ++ tr2) = did c p tr1 || did c p tr2.
Proof. unfold did. apply existsb_app. Qed.

Lemma did_by_same c p l : did c p (by_ c l) = existsb p l.
Proof.
  unfold did, by_. induction l as [|ev l IH]; [reflexivity|].
  cbn [map existsb fst snd]. rewrite IH, bool_decide_eq_true_2 by reflexivity.
  reflexivity.
Qed.

Lemma did_by_other c p l : did c p (by_ (other c) l) = false.
Proof.
  unfold did, by_. induction l as [|ev l IH]; [reflexivity|].
  cbn [map existsb fst snd]. rewrite IH, bool_decide_eq_false_2.
  - reflexivity.
  - destruct c; discriminate.
Qed.

Lemma did_other_by c p l : did (other c) p (by_ c l) = false.
Proof.
  rewrite <- (other_other c) at 2. apply did_by_other.
Qed.

Lemma existsb_quiet_isLock body : Forall quiet body -> existsb isLock body = false.
Proof.
  induction 1 as [|ev body [Hl _] _ IH]; [reflexivity|].
  cbn [existsb]. rewrite IH. destruct ev; try reflexivity. contradiction.
Qed.

Lemma existsb_quiet_isUnlock body :
  Forall quiet body -> existsb isUnlock body = false.
Proof.
  induction 1 as [|ev body [_ Hu] _ IH]; [reflexivity|].
  cbn [existsb]. rewrite IH. destruct ev; try reflexivity. contradiction.
Qed.

Lemma Forall_quiet_take n body : Forall quiet body -> Forall quiet (take n body).
Proof. apply Forall_take. Qed.

(** Which of [Lock] and [Unlock] are among the first [n] events of a
    guarded program. *)
Lemma locked_in_take body n :
  Forall quiet body ->
  existsb isLock (take n (guarded body)) = (0 <? n)%nat.
Proof.
  intros Hq. destruct n as [|n]; [reflexivity|]. reflexivity.
Qed.

Lemma unlocked_in_take body n :
  Forall quiet body ->
  existsb isUnlock (take n (guarded body)) = (S (length body) <? n)%nat.
Proof.
  intros Hq. destruct n as [|n]; [reflexivity|].
  unfold guarded. cbn [take existsb isUnlock orb].
  destruct (decide (n <= length body)%nat) as [Hle|Hgt].
  - rewrite take_app_le by exact Hle.
    rewrite (existsb_quiet_isUnlock _ (Forall_quiet_take n body Hq)).
    symmetry. apply Nat.ltb_ge. lia.
  - rewrite take_ge by (rewrite length_app; cbn; lia).
    rewrite existsb_app, (existsb_quiet_isUnlock body Hq). cbn.
    symmetry. apply Nat.ltb_lt. lia.
Qed.

Section Inside.
Variable body : Call -> list Event.
Hypothesis body_quiet : forall c, Forall quiet (body c).

(** Under the invariant, the calls that are in their critical section
    are those that hold the mutex. *)
Lemma inside_holds st c n m :
  Inv body st c n m ->
  inside c (trace st) = holds body c n
  /\ inside (other c) (trace st) = holds body (other c) m.
Proof.
  intros (Hn & Hm & Hnm & Htc & Hto & Htr & Hl).
  unfold inside, holds, len, prog in *. rewrite Htr, !did_app.
  rewrite !did_by_same, !did_by_other, !did_other_by, !orb_false_r.
  cbn [orb].
  rewrite !locked_in_take, !unlocked_in_take by apply body_quiet.
  split; f_equal.
  - destruct (Nat.ltb_spec (S (length (body c))) n),
             (Nat.ltb_spec n (S (S (length (body c))))); cbn; auto; lia.
  - destruct (Nat.ltb_spec (S (length (body (other c)))) m),
             (Nat.ltb_spec m (S (S (length (body (other c)))))); cbn; auto; lia.
Qed.

(** Under the invariant, a call whose next event is [Unlock] holds the
    mutex. *)
Lemma unlock_holds st c n m d rest :
  Inv body st c n m ->
  todo st d = Unlock :: rest ->
  locked st = true.
Proof.
  intros (Hn & Hm & Hnm & Htc & Hto & Htr & Hl) Hd.
  assert (Hat : forall c' k,
            drop k (prog body c') = Unlock :: rest -> holds body c' k = true).
  { intros c' k Hk. apply drop_cons_inv in Hk. destruct Hk as (Hk & _ & _).
    destruct (guarded_lookup _ _ _ (body_quiet c') Hk)
      as [[_ H] | [[_ [_ H]] | [-> _]]]; try discriminate; try contradiction.
    unfold holds, len. cbn [Nat.ltb Nat.leb].
    rewrite Nat.leb_refl. reflexivity. }
  rewrite Hl. destruct (decide (d = c)) as [->|Hne].
  - rewrite Htc in Hd. rewrite (Hat _ _ Hd). reflexivity.
  - assert (d = other c) as -> by (destruct d, c; simpl; congruence).
    rewrite Hto in Hd. rewrite (Hat _ _ Hd). apply orb_true_r.
Qed.

End Inside.

(** Every step adds one event to what has happened. *)
Lemma step_length c st st' :
  step c st = Some st' -> length (trace st') = S (length (trace st)).
Proof.
  unfold step. destruct (todo st c) as [|ev rest]; [discriminate|].
  assert (H : forall l,
            length (trace {| locked := l;
                             pending := update c rest (pending st);
                             trace := trace st ++ [(c, ev)] |})
            = S (length (trace st)))
    by (intros l; cbn [trace]; rewrite length_app; cbn; lia).
  destruct ev; destruct (locked st); intros Hs;
    try discriminate; injection Hs as <-; apply H.
Qed.

Lemma run_length schedule st st' :
  run schedule st = Some st' ->
  length (trace st') = (length (trace st) + length schedule)%nat.
Proof.
  revert st. induction schedule as [|c rest IH]; intros st Hrun.
  - injection Hrun as <-. cbn. lia.
  - cbn [run] in Hrun. destruct (step c st) as [st1|] eqn:Hs; [|discriminate].
    rewrite (IH _ Hrun), (step_length _ _ _ Hs). cbn. lia.
Qed.

End ExclusionMore.

(** X16: mutual exclusion.  However two calls of [Collect] on one
    exporter are scheduled, they are never both between their [Lock]
    and their [Unlock], and the mutex is locked exactly when one of
    them is. *)
Theorem never_both_inside
    (e : Exporter) (w : Concurrent.Call -> World)
    (schedule : list Concurrent.Call) (st : Concurrent.State) :
  Concurrent.run schedule (Concurrent.init w e) = Some st ->
  Trace.inside Concurrent.CallA (Concurrent.trace st)
    && Trace.inside Concurrent.CallB (Concurrent.trace st) = false
  /\ Concurrent.locked st
     = Trace.inside Concurrent.CallA (Concurrent.trace st)
       || Trace.inside Concurrent.CallB (Concurrent.trace st).
Proof.
  intros Hrun.
  pose (body := fun c => cycleBody (w c) e).
  assert (Hq : forall c, Forall Concurrent.quiet (body c))
    by (intros c; apply CollectShape.quiet_cycleBody).
  destruct (ConcurrentFacts.run_Inv body Hq schedule _ st _ _ _
              (CollectShape.init_Inv w e) Hrun) as (c & n & m & HI).
  destruct (ExclusionMore.inside_holds body Hq st c n m HI) as [Hc Ho].
  destruct HI as (Hn & Hm & Hnm & _ & _ & _ & Hl).
  assert (Hnot : Concurrent.holds body c n
                 && Concurrent.holds body (Concurrent.other c) m = false).
  { destruct Hnm as [-> | ->].
    - rewrite ConcurrentFacts.holds_0. apply andb_false_r.
    - rewrite ConcurrentFacts.holds_len. reflexivity. }
  rewrite <- Hc, <- Ho in Hl, Hnot.
  destruct c; cbn [Concurrent.other] in *.
  - split; assumption.
  - split; [rewrite andb_comm | rewrite orb_comm]; assumption.
Qed.

Lemma never_both_inside_witness :
  exists st : Concurrent.State,
    Concurrent.run [Concurrent.CallB; Concurrent.CallB]
      (Concurrent.init Concurrent.upThenDown Worlds.spring) = Some st
    /\ Concurrent.locked st
       = Trace.inside Concurrent.CallA (Concurrent.trace st)
         || Trace.inside Concurrent.CallB (Concurrent.trace st).
Proof.
  eexists. split; [vm_compute; reflexivity|].
  apply (never_both_inside Worlds.spring Concurrent.upThenDown
           [Concurrent.CallB; Concurrent.CallB]).
  vm_compute. reflexivity.
Defined.

(** X17: however two calls are scheduled, a call that comes to its
    [Unlock] finds the mutex locked, so that no call unlocks an unlocked
    mutex; every step adds one event, and there are no more steps than
    the two cycles have events: the calls cannot run on for ever. *)
Theorem runs_are_safe_and_bounded
    (e : Exporter) (w : Concurrent.Call -> World)
    (schedule : list Concurrent.Call) (st : Concurrent.State) :
  Concurrent.run schedule (Concurrent.init w e) = Some st ->
  (forall c rest, Concurrent.todo st c = Unlock :: rest ->
     Concurrent.locked st = true)
  /\ length (Concurrent.trace st) = length schedule
  /\ (length schedule
      <= length (Collect (w Concurrent.CallA) e)
         + length (Collect (w Concurrent.CallB) e))%nat.
Proof.
  intros Hrun.
  pose (body := fun c => cycleBody (w c) e).
  assert (Hq : forall c, Forall Concurrent.quiet (body c))
    by (intros c; apply CollectShape.quiet_cycleBody).
  destruct (ConcurrentFacts.run_Inv body Hq schedule _ st _ _ _
              (CollectShape.init_Inv w e) Hrun) as (c & n & m & HI).
  pose proof (ExclusionMore.run_length _ _ _ Hrun) as Hlen.
  change (length (Concurrent.trace st) = length schedule) in Hlen.
  split; [|split].
  - intros d rest Hd.
    exact (ExclusionMore.unlock_holds body Hq st c n m d rest HI Hd).
  - exact Hlen.
  - rewrite <- Hlen.
    destruct HI as (Hn & Hm & _ & _ & _ & Htr & _).
    rewrite Htr, length_app, !GuardFacts.length_by, !length_take.
    rewrite !CollectShape.Collect_guarded, !ConcurrentFacts.length_guarded.
    unfold Concurrent.len in *. fold (body Concurrent.CallA) (body Concurrent.CallB).
    destruct c; cbn [Concurrent.other] in *; lia.
Qed.

Lemma runs_are_safe_and_bounded_witness :
  exists st : Concurrent.State,
    Concurrent.run Concurrent.secondGoesFirst
      (Concurrent.init Concurrent.upThenDown Worlds.spring) = Some st
    /\ length (Concurrent.trace st) = length Concurrent.secondGoesFirst.
Proof.
  eexists. split; [vm_compute; reflexivity|].
  apply (runs_are_safe_and_bounded Worlds.spring Concurrent.upThenDown
           Concurrent.secondGoesFirst).
  vm_compute. reflexivity.
Defined.
